(** * git-rollout: the checkout reconciler of [gitrollout/repo.py]

    A shallow embedding of [TargetConfig], [Repo.get_diff] and
    [MirrorHub._apply_diff] / [_remove] / [_add], with the properties the
    specification states about them.

    - Python strings are [string]; dictionaries are [gmap string _], sets are
      [gset string].
    - The [re] module is embedded as a small backtracking matcher over the
      fragment of the pattern language the program itself uses.
    - The file system, the mirror, the event hook and [stderr] are explicit:
      a program is a function from a [World] to a [World] and an outcome,
      which is a value or a raised exception.
    - [Repo.sync], [MirrorHub.sync] and [MirrorHub.__init__] take the
      mirror and give it back; what a fetch or a clone brings is a
      parameter. *)

From Stdlib Require Import String Ascii List ZArith Lia Bool.
From stdpp Require Import gmap strings list fin_maps.
Import ListNotations.

Local Open Scope string_scope.
Local Open Scope list_scope.

(** ** The [re] module *)

Module Re.

(** The pattern fragment: the empty pattern, [^], a literal character, [.],
    a character class [[...]], concatenation, [|] and [*]. *)
Inductive regex : Type :=
| Eps
| Bol
| Chr (c : ascii)
| Dot
| Class (cs : list ascii)
| Cat (r1 r2 : regex)
| Alt (r1 r2 : regex)
| Star (r : regex).

Definition newline : ascii := "010"%char.

Definition in_class (a : ascii) (cs : list ascii) : bool :=
  existsb (Ascii.eqb a) cs.

(** A continuation: what to do with the rest of the subject, from an
    offset on. *)
Definition cont : Type := nat -> string -> option nat.

(** The loop of [*]: one more iteration of [step] if it succeeds and
    consumes input, else the continuation. The length of the subject bounds
    the number of iterations ([fuel]). *)
Definition star (step : nat -> string -> cont -> option nat) (k : cont)
    : nat -> nat -> string -> option nat :=
  fix loop (fuel : nat) (pos : nat) (s : string) {struct fuel} : option nat :=
    match fuel with
    | O => k pos s
    | S fuel' =>
        match step pos s
                (fun p t =>
                   if Nat.ltb (String.length t) (String.length s)
                   then loop fuel' p t else None) with
        | Some e => Some e
        | None => k pos s
        end
    end.

(** [bt r pos s k]: match [r] against [s], which starts at offset [pos] of
    the subject, then continue with [k] on what is left. Alternatives are
    tried left to right and [*] is greedy, as in [re]; [.] matches anything
    but a newline (no DOTALL) and [^] only offset 0 (no MULTILINE). The
    result is the offset where the match ends. *)
Fixpoint bt (r : regex) (pos : nat) (s : string) (k : cont) {struct r}
    : option nat :=
  match r with
  | Eps => k pos s
  | Bol => if Nat.eqb pos 0 then k pos s else None
  | Chr c =>
      match s with
      | String a s' => if Ascii.eqb a c then k (S pos) s' else None
      | EmptyString => None
      end
  | Dot =>
      match s with
      | String a s' => if Ascii.eqb a newline then None else k (S pos) s'
      | EmptyString => None
      end
  | Class cs =>
      match s with
      | String a s' => if in_class a cs then k (S pos) s' else None
      | EmptyString => None
      end
  | Cat r1 r2 => bt r1 pos s (fun p t => bt r2 p t k)
  | Alt r1 r2 =>
      match bt r1 pos s k with
      | Some e => Some e
      | None => bt r2 pos s k
      end
  | Star r1 => star (bt r1) k (String.length s) pos s
  end.

Definition accept : cont := fun e _ => Some e.

(** [pattern.match(s)]: a match that starts at offset 0; the result is the
    end offset of the match, [None] when there is none. *)
Definition match_ (r : regex) (s : string) : option nat := bt r 0 s accept.

(** [re.search(pattern, s)]: the leftmost offset at which the pattern
    matches, as [(start, end)]. *)
Fixpoint search_from (r : regex) (pos : nat) (s : string)
    : option (nat * nat) :=
  match bt r pos s accept with
  | Some e => Some (pos, e)
  | None =>
      match s with
      | EmptyString => None
      | String _ s' => search_from r (S pos) s'
      end
  end.

Definition search (r : regex) (s : string) : option (nat * nat) :=
  search_from r 0 s.

(** [match.group(0)] *)
Definition group0 (s : string) (m : nat * nat) : string :=
  substring (fst m) (snd m - fst m) s.

(** What the patterns mean: [lang r pos s p t] says that [r] matches the
    part of [s] (which starts at offset [pos]) that ends where [t] starts,
    at offset [p]. An iteration of [*] that consumes nothing adds nothing
    to what [*] matches, and is left out. *)
Inductive lang : regex -> nat -> string -> nat -> string -> Prop :=
| lang_Eps pos s : lang Eps pos s pos s
| lang_Bol s : lang Bol 0 s 0 s
| lang_Chr c pos s : lang (Chr c) pos (String c s) (S pos) s
| lang_Dot a pos s :
    Ascii.eqb a newline = false -> lang Dot pos (String a s) (S pos) s
| lang_Class cs a pos s :
    in_class a cs = true -> lang (Class cs) pos (String a s) (S pos) s
| lang_Cat r1 r2 pos s p1 t1 p t :
    lang r1 pos s p1 t1 -> lang r2 p1 t1 p t -> lang (Cat r1 r2) pos s p t
| lang_Alt_l r1 r2 pos s p t : lang r1 pos s p t -> lang (Alt r1 r2) pos s p t
| lang_Alt_r r1 r2 pos s p t : lang r2 pos s p t -> lang (Alt r1 r2) pos s p t
| lang_Star_done r pos s : lang (Star r) pos s pos s
| lang_Star_more r pos s p1 t1 p t :
    lang r pos s p1 t1 -> String.length t1 < String.length s ->
    lang (Star r) p1 t1 p t -> lang (Star r) pos s p t.

End Re.

Import Re.

(** ** The world outside the program *)

(** What lies at a path: a checkout of a revision, some other directory,
    or something that is not a directory. A path stands for the whole tree
    below it: the paths a namespace works on are [root/name] for names
    without ['/'], so none of them lies below another. *)
Inductive node : Type :=
| Checkout (rev : string)
| Dir
| File.

(** What the program does to the outside, in the order it does it. *)
Inductive action : Type :=
| Print (msg : string)
| Call (args : list string)
| Rmtree (p : string)
| Clone (p : string) (branch : string).

Record World : Type := {
  fs : gmap string node;
  trace : list action
}.

(** The event hook: whether a command can be started at all, and the exit
    status of a run. The hook is taken to leave the checkout tree alone. *)
Record Env : Type := {
  executable : string -> bool;
  exit_status : list string -> Z
}.

Inductive exn : Type :=
| ValueError (msg : string)
| OSError (p : string)
| GitCommandError (p : string) (branch : string).

Inductive outcome (A : Type) : Type :=
| Ok (a : A)
| Raise (e : exn).
Arguments Ok {A} a.
Arguments Raise {A} e.

(** A program: it changes the world and returns, or raises. What it did
    before it raised stays done. *)
Definition M (A : Type) : Type := World -> World * outcome A.

Definition ret {A : Type} (a : A) : M A := fun w => (w, Ok a).

Definition raise {A : Type} (e : exn) : M A := fun w => (w, Raise e).

Definition bind {A B : Type} (m : M A) (f : A -> M B) : M B :=
  fun w =>
    match m w with
    | (w', Ok a) => f a w'
    | (w', Raise e) => (w', Raise e)
    end.

Declare Scope prog_scope.
Delimit Scope prog_scope with prog.
Notation "x <- c1 ;; c2" := (bind c1 (fun x => c2))
  (at level 100, c1 at next level, right associativity) : prog_scope.
Notation "c1 ;; c2" := (bind c1 (fun _ => c2))
  (at level 100, right associativity) : prog_scope.
Local Open Scope prog_scope.

(** The truth value of an optional object: [None] is false. *)
Definition truthy {A : Type} (o : option A) : bool :=
  match o with
  | Some _ => true
  | None => false
  end.

(** [for x in l: body(x)] *)
Fixpoint for_ {A : Type} (l : list A) (body : A -> M unit) : M unit :=
  match l with
  | [] => ret tt
  | x :: l' => body x ;; for_ l' body
  end.

Definition log (a : action) : M unit :=
  fun w => ({| fs := fs w; trace := trace w ++ [a] |}, Ok tt).

(** [print(msg, file=sys.stderr)] *)
Definition print_stderr (msg : string) : M unit := log (Print msg).

(** [os.path.exists(p)] *)
Definition path_exists (p : string) : M bool :=
  fun w => (w, Ok (truthy (fs w !! p))).

(** [shutil.rmtree(p)]: deletes the tree at [p]; raises when there is
    nothing at [p] or [p] is not a directory. *)
Definition rmtree (p : string) : M unit :=
  fun w =>
    match fs w !! p with
    | Some (Checkout _) | Some Dir =>
        ({| fs := delete p (fs w); trace := trace w ++ [Rmtree p] |}, Ok tt)
    | Some File | None => (w, Raise (OSError p))
    end.

(** [subprocess.call(args)]: runs the command and returns its exit status;
    raises when the command cannot be started. *)
Definition subprocess_call (env : Env) (args : list string) : M Z :=
  fun w =>
    match args with
    | cmd :: _ =>
        if executable env cmd
        then ({| fs := fs w; trace := trace w ++ [Call args] |},
              Ok (exit_status env args))
        else (w, Raise (OSError cmd))
    | [] => (w, Raise (OSError ""))
    end.

(** ** [class TargetConfig] *)

Record TargetConfig : Type := {
  path : string;
  filters : list regex;
  eventCmd : option string
}.

(** [r'.*'] *)
Definition match_all : regex := Star Dot.

(** [TargetConfig.__init__] *)
Definition TargetConfig_init (path : string) (filters : option (list regex))
    (eventCmd : option string) : TargetConfig :=
  let filters := match filters with
                 | None => [match_all]
                 | Some fl => fl
                 end in
  {| path := path; filters := filters; eventCmd := eventCmd |}.

(** [TargetConfig.emit] *)
Definition emit (env : Env) (self : TargetConfig)
    (refType event name : string) (desc : option string) : M unit :=
  match eventCmd self with
  | None => ret tt
  | Some cmd =>
      let args := [cmd; refType; event; name] in
      let args := match desc with
                  | Some d => args ++ [d]
                  | None => args
                  end in
      _ <- subprocess_call env args ;;
      ret tt
  end.

(** [r'^\.|.*[/$\0\n\t]'] *)
Definition nasty_chars : list ascii :=
  ["/"%char; "$"%char; "000"%char; "010"%char; "009"%char].

Definition nasty : regex :=
  Alt (Cat Bol (Chr "."%char)) (Cat (Star Dot) (Class nasty_chars)).

(** [any([filter.match(name) for filter in self.filters])] *)
Definition any_filter_matches (self : TargetConfig) (name : string) : bool :=
  existsb (fun f => truthy (match_ f name)) (filters self).

(** [TargetConfig.is_valid_name] *)
Definition is_valid_name (self : TargetConfig) (name : string) : M bool :=
  if negb (any_filter_matches self name) then ret false
  else
    match search nasty name with
    | Some m =>
        print_stderr ("name '" +:+ name +:+ "' is not allowed (contains '"
                      +:+ group0 name m +:+ "')") ;;
        ret false
    | None => ret true
    end.

(** ** [class Repo] *)

(** The mirror: the revision of every branch and of every tag. *)
Record Repo : Type := {
  branches : gmap string string;
  tags : gmap string string
}.

Record RefDiff : Type := {
  removed : list string;
  added : list string;
  modified : list string;
  unmodified : list string
}.

(** [Repo.get_diff] *)
Definition get_diff (before after : gmap string string) : RefDiff :=
  let beforeSet : gset string := dom before in
  let afterSet : gset string := dom after in
  let removed := beforeSet ∖ afterSet in
  let added := afterSet ∖ beforeSet in
  let modified : gset string :=
    filter (fun name => before !! name ≠ after !! name)
           (beforeSet ∩ afterSet) in
  let unmodified := (beforeSet ∩ afterSet) ∖ modified in
  {| removed := elements removed;
     added := elements added;
     modified := elements modified;
     unmodified := elements unmodified |}.

(** What [--branch name] names in the mirror: a branch, else a tag. *)
Definition resolve (self : Repo) (name : string) : option string :=
  match branches self !! name with
  | Some rev => Some rev
  | None => tags self !! name
  end.

(** [Repo.clone(p, branch=name, depth=1)]: a checkout of [name] at [p];
    raises when the mirror has no such ref or [p] is taken. *)
Definition clone (self : Repo) (p : string) (name : string) : M unit :=
  fun w =>
    match fs w !! p, resolve self name with
    | None, Some rev =>
        ({| fs := <[p := Checkout rev]> (fs w);
            trace := trace w ++ [Clone p name] |}, Ok tt)
    | _, _ => (w, Raise (GitCommandError p name))
    end.

(** ** [class MirrorHub] *)

Record MirrorHub : Type := {
  repo : Repo;
  branchesConfig : option TargetConfig;
  tagsConfig : option TargetConfig
}.

(** [MirrorHub._remove] *)
Definition _remove (env : Env) (self : MirrorHub) (refType : string)
    (config : TargetConfig) (refNames : list string) : M unit :=
  for_ refNames (fun name =>
    valid <- is_valid_name config name ;;
    if negb valid then ret tt
    else
      let p := path config +:+ "/" +:+ name in
      ex <- path_exists p ;;
      if ex then
        emit env config refType "pre-remove" name
             (Some ("about to remove path " +:+ p)) ;;
        rmtree p ;;
        emit env config refType "post-remove" name
             (Some ("removed path " +:+ p))
      else ret tt).

(** [MirrorHub._add] *)
Definition _add (env : Env) (self : MirrorHub) (refType : string)
    (config : TargetConfig) (refNames : list string) : M unit :=
  for_ refNames (fun name =>
    valid <- is_valid_name config name ;;
    if negb valid then ret tt
    else
      let p := path config +:+ "/" +:+ name in
      ex <- path_exists p ;;
      (if ex then
         print_stderr ("Warning: removing path " +:+ p
                       +:+ " (which shouldn't be there)") ;;
         rmtree p
       else ret tt) ;;
      emit env config refType "pre-add" name
           (Some ("about to clone to path " +:+ p)) ;;
      clone (repo self) p name ;;
      emit env config refType "post-add" name
           (Some ("cloned to path " +:+ p))).

(** [MirrorHub._apply_diff] *)
Definition _apply_diff (env : Env) (self : MirrorHub) (refType : string)
    (diff : RefDiff) : M unit :=
  config <- (if String.eqb refType "branches" then ret (branchesConfig self)
             else if String.eqb refType "tags" then ret (tagsConfig self)
             else raise (ValueError "refType must be 'branches' or 'tags'")) ;;
  match config with
  | None => ret tt
  | Some config =>
      _remove env self refType config (removed diff ++ modified diff) ;;
      _add env self refType config (modified diff ++ added diff)
  end.

(** ** Vocabulary of the properties *)

(** The name begins with ['.']. *)
Definition starts_with_dot (s : string) : bool :=
  match s with
  | String a _ => Ascii.eqb a "."%char
  | EmptyString => false
  end.

(** The name contains one of the characters [cs]. *)
Fixpoint has_char_in (cs : list ascii) (s : string) : bool :=
  match s with
  | String a s' => in_class a cs || has_char_in cs s'
  | EmptyString => false
  end.

(** What [is_valid_name] answers, without the diagnostic. *)
Definition valid_name (config : TargetConfig) (name : string) : bool :=
  any_filter_matches config name && negb (truthy (search nasty name)).

(** [config.path + '/' + name] *)
Definition target (config : TargetConfig) (name : string) : string :=
  path config +:+ "/" +:+ name.


(** An empty checkout tree, nothing done yet. *)
Definition nothing : World := {| fs := ∅; trace := [] |}.

(** A hook that starts and fails with status 1. *)
Definition failing_hook : Env :=
  {| executable := fun _ => true; exit_status := fun _ => 1%Z |}.

(** The world after some more actions. *)
Definition said (w : World) (d : list action) : World :=
  {| fs := fs w; trace := trace w ++ d |}.

(** The hook can be run: there is none, or it can be started. *)
Definition hook_ok (env : Env) (config : TargetConfig) : bool :=
  match eventCmd config with
  | Some cmd => executable env cmd
  | None => true
  end.

(** The call of the hook for an event, if there is a hook. *)
Definition hook_calls (config : TargetConfig)
    (refType event name desc : string) : list action :=
  match eventCmd config with
  | Some cmd => [Call [cmd; refType; event; name; desc]]
  | None => []
  end.

(** The event of a call of the hook: its second argument. *)
Definition event_of (args : list string) : string := nth 2 args "".

(** What [is_valid_name] prints. *)
Definition diagnostics (config : TargetConfig) (name : string)
    : list action :=
  if any_filter_matches config name then
    match search nasty name with
    | Some m => [Print ("name '" +:+ name +:+ "' is not allowed (contains '"
                        +:+ group0 name m +:+ "')")]
    | None => []
    end
  else [].

(** The warning of [_add]. *)
Definition warning (p : string) : action :=
  Print ("Warning: removing path " +:+ p +:+ " (which shouldn't be there)").

(** The body of the loop of [_remove]. *)
Definition remove_one (env : Env) (refType : string) (config : TargetConfig)
    (name : string) : M unit :=
  valid <- is_valid_name config name ;;
  if negb valid then ret tt
  else
    let p := path config +:+ "/" +:+ name in
    ex <- path_exists p ;;
    if ex then
      emit env config refType "pre-remove" name
           (Some ("about to remove path " +:+ p)) ;;
      rmtree p ;;
      emit env config refType "post-remove" name
           (Some ("removed path " +:+ p))
    else ret tt.

(** The body of the loop of [_add]. *)
Definition add_one (env : Env) (self : MirrorHub) (refType : string)
    (config : TargetConfig) (name : string) : M unit :=
  valid <- is_valid_name config name ;;
  if negb valid then ret tt
  else
    let p := path config +:+ "/" +:+ name in
    ex <- path_exists p ;;
    (if ex then
       print_stderr ("Warning: removing path " +:+ p
                     +:+ " (which shouldn't be there)") ;;
       rmtree p
     else ret tt) ;;
    emit env config refType "pre-add" name
         (Some ("about to clone to path " +:+ p)) ;;
    clone (repo self) p name ;;
    emit env config refType "post-add" name
         (Some ("cloned to path " +:+ p)).

(** The checkout directories of the valid names among [names]. *)
Definition valid_targets (config : TargetConfig) (names : list string)
    : list string :=
  map (target config) (List.filter (valid_name config) names).

(** What [_remove] may do for [names]: print, announce a removal, delete
    the directory of a valid name; it never clones. *)
Definition remove_action (config : TargetConfig) (names : list string)
    (a : action) : Prop :=
  match a with
  | Print _ => True
  | Call args => event_of args = "pre-remove" \/ event_of args = "post-remove"
  | Rmtree p => In p (valid_targets config names)
  | Clone _ _ => False
  end.

(** What [_add] may do for [names]: print, announce an addition, delete
    and clone the directory of a valid name. *)
Definition add_action (config : TargetConfig) (names : list string)
    (a : action) : Prop :=
  match a with
  | Print _ => True
  | Call args => event_of args = "pre-add" \/ event_of args = "post-add"
  | Rmtree p => In p (valid_targets config names)
  | Clone p b =>
      In b names /\ valid_name config b = true /\ p = target config b
  end.

(** From [w] to [w']: more actions, all of them allowed by [P], and the
    file system changed at the paths [T] only. *)
Definition grows (P : action -> Prop) (T : string -> Prop) (w w' : World)
    : Prop :=
  (exists d, trace w' = trace w ++ d /\ Forall P d)
  /\ (forall p, ~ T p -> fs w' !! p = fs w !! p).

(** An exception of the outside world, not a [ValueError]. *)
Definition external (e : exn) : Prop :=
  match e with
  | ValueError _ => False
  | _ => True
  end.

(** [config] is the configuration [_apply_diff] selects for [refType]. *)
Definition configured (self : MirrorHub) (refType : string)
    (config : TargetConfig) : Prop :=
  (refType = "branches" /\ branchesConfig self = Some config)
  \/ (refType = "tags" /\ tagsConfig self = Some config).

(** A mirror with three branches and a tag, checkouts configured for both
    namespaces with the default filter and a hook, and a checkout tree
    that holds [main] and [x] at old revisions. *)
Definition example_hub : MirrorHub :=
  {| repo := {| branches := {[ "main" := "def"; "dev" := "111";
                               "x" := "222" ]};
                tags := {[ "v1" := "aaa" ]} |};
     branchesConfig :=
       Some (TargetConfig_init "/srv/branches" None (Some "/bin/hook"));
     tagsConfig :=
       Some (TargetConfig_init "/srv/tags" None (Some "/bin/hook")) |}.

Definition example_world : World :=
  {| fs := {[ "/srv/branches/main" := Checkout "abc";
              "/srv/branches/x" := Checkout "000" ]};
     trace := [] |}.

(** [{'removed': removed, 'added': added, 'modified': modified,
      'unmodified': []}] *)
Definition diff_of (removed added modified : list string) : RefDiff :=
  {| removed := removed; added := added; modified := modified;
     unmodified := [] |}.





(** ** [Repo.sync], [MirrorHub.sync] and [MirrorHub.__init__] *)

(** The mirror is an object the methods below change: they take it and
    give it back. What a fetch brings is the state of the remote, [None]
    when the fetch fails; a failed fetch leaves the mirror as it was. With
    [-f] and [-p] on a mirror, a fetch that succeeds makes the branches
    and tags of the mirror those of the remote. *)

(** [Repo.sync] *)
Definition Repo_sync (fetched : option Repo) (self : Repo)
    : Repo * outcome (RefDiff * RefDiff) :=
  let branchesBefore := branches self in
  let tagsBefore := tags self in
  match fetched with
  | None => (self, Raise (GitCommandError "fetch" "--all"))
  | Some self' =>
      let branchesAfter := branches self' in
      let tagsAfter := tags self' in
      let branchesDiff := get_diff branchesBefore branchesAfter in
      let tagsDiff := get_diff tagsBefore tagsAfter in
      (self', Ok (branchesDiff, tagsDiff))
  end.

(** The hub with its mirror in a new state. *)
Definition with_repo (self : MirrorHub) (r : Repo) : MirrorHub :=
  {| repo := r;
     branchesConfig := branchesConfig self;
     tagsConfig := tagsConfig self |}.

(** [MirrorHub.sync]: the hub afterwards, the world afterwards and the
    outcome. *)
Definition MirrorHub_sync (env : Env) (fetched : option Repo)
    (self : MirrorHub) (w : World) : MirrorHub * (World * outcome unit) :=
  match Repo_sync fetched (repo self) with
  | (r, Raise e) => (with_repo self r, (w, Raise e))
  | (r, Ok (branchesDiff, tagsDiff)) =>
      let self' := with_repo self r in
      (self',
       (_apply_diff env self' "branches" branchesDiff ;;
        _apply_diff env self' "tags" tagsDiff) w)
  end.

(** [[ref.name for ref in refs]] *)
Definition ref_names (refs : gmap string string) : list string :=
  elements (dom refs).

(** [MirrorHub.__init__]. [on_disk] is what is at [path]: nothing, or the
    mirror with the URL of its origin; [remote url] is what a clone or a
    fetch from [url] brings. The result is what is at [path] afterwards,
    the world afterwards, and the hub or the exception. *)
Definition MirrorHub_init (env : Env) (remote : option string -> option Repo)
    (on_disk : option (option string * Repo)) (remoteUrl : option string)
    (branchesConfig tagsConfig : option TargetConfig) (w : World)
    : option (option string * Repo) * (World * outcome MirrorHub) :=
  match on_disk with
  | Some (origin, r) =>
      let self := {| repo := r; branchesConfig := branchesConfig;
                     tagsConfig := tagsConfig |} in
      let origin := match remoteUrl with
                    | Some url => Some url
                    | None => origin
                    end in
      match MirrorHub_sync env (remote origin) self w with
      | (self', (w', Ok _)) => (Some (origin, repo self'), (w', Ok self'))
      | (self', (w', Raise e)) => (Some (origin, repo self'), (w', Raise e))
      end
  | None =>
      match remote remoteUrl with
      | None => (None, (w, Raise (GitCommandError "clone" "--mirror")))
      | Some r =>
          let self := {| repo := r; branchesConfig := branchesConfig;
                         tagsConfig := tagsConfig |} in
          match (_apply_diff env self "branches"
                   {| removed := [];
                      added := ref_names (branches r);
                      modified := [];
                      unmodified := [] |} ;;
                 _apply_diff env self "tags"
                   {| removed := [];
                      added := ref_names (tags r);
                      modified := [];
                      unmodified := [] |}) w with
          | (w', Ok _) => (Some (remoteUrl, r), (w', Ok self))
          | (w', Raise e) => (Some (remoteUrl, r), (w', Raise e))
          end
      end
  end.

(** ** More vocabulary *)



(** What [_add] does for one name, from the file system it starts with. *)
Definition add_events (config : TargetConfig) (refType : string)
    (m : gmap string node) (name : string) : list action :=
  if valid_name config name then
    match m !! target config name with
    | Some _ => [warning (target config name); Rmtree (target config name)]
    | None => []
    end
    ++ hook_calls config refType "pre-add" name
         ("about to clone to path " +:+ target config name)
    ++ [Clone (target config name) name]
    ++ hook_calls config refType "post-add" name
         ("cloned to path " +:+ target config name)
  else diagnostics config name.

(** The file system with the checkouts of the valid names among [names]
    put in, at the revisions of the mirror. *)
Definition checked_out (self : Repo) (config : TargetConfig)
    (names : list string) (m : gmap string node) : gmap string node :=
  foldl (fun m n =>
           if valid_name config n then
             match resolve self n with
             | Some r => <[target config n := Checkout r]> m
             | None => m
             end
           else m) m names.


(** ** The matcher on the two patterns of the program *)

Section Matcher.

Lemma star_S step k fuel pos s :
  star step k (S fuel) pos s
  = match step pos s
            (fun p t =>
               if Nat.ltb (String.length t) (String.length s)
               then star step k fuel p t else None) with
    | Some e => Some e
    | None => k pos s
    end.
Proof. reflexivity. Qed.

Lemma star_done step k fuel pos s :
  is_Some (k pos s) -> is_Some (star step k fuel pos s).
Proof.
  intros Hk. destruct fuel as [|fuel]; [exact Hk|].
  rewrite star_S. destruct (step pos s _); eauto.
Qed.

(** The matcher finds only what the pattern matches ... *)
Lemma bt_sound r : forall pos s k e,
  bt r pos s k = Some e ->
  exists p t, lang r pos s p t /\ k p t = Some e.
Proof.
  induction r as [| |c| |cs|r1 IH1 r2 IH2|r1 IH1 r2 IH2|r IH];
    intros pos s k e; cbn [bt].
  - intros H. exists pos, s. split; [constructor | exact H].
  - destruct pos; [|discriminate]. intros H.
    exists 0, s. split; [constructor | exact H].
  - destruct s as [|a s']; [discriminate|].
    destruct (Ascii.eqb a c) eqn:Ea; [|discriminate].
    apply Ascii.eqb_eq in Ea. subst a. intros H.
    exists (S pos), s'. split; [constructor | exact H].
  - destruct s as [|a s']; [discriminate|].
    destruct (Ascii.eqb a newline) eqn:Ea; [discriminate|]. intros H.
    exists (S pos), s'. split; [by constructor | exact H].
  - destruct s as [|a s']; [discriminate|].
    destruct (in_class a cs) eqn:Ea; [|discriminate]. intros H.
    exists (S pos), s'. split; [by constructor | exact H].
  - intros H. apply IH1 in H. destruct H as (p1 & t1 & H1 & H).
    apply IH2 in H. destruct H as (p & t & H2 & H).
    exists p, t. split; [econstructor; eauto | exact H].
  - destruct (bt r1 pos s k) as [e1|] eqn:E1.
    + intros [= <-]. apply IH1 in E1. destruct E1 as (p & t & H1 & H).
      exists p, t. split; [by apply lang_Alt_l | exact H].
    + intros H. apply IH2 in H. destruct H as (p & t & H2 & H).
      exists p, t. split; [by apply lang_Alt_r | exact H].
  - generalize (String.length s) as fuel. intros fuel. revert pos s.
    induction fuel as [|fuel IHf]; intros pos s.
    + intros H. exists pos, s. split; [constructor | exact H].
    + rewrite star_S.
      destruct (bt r pos s _) as [e1|] eqn:E1.
      * intros [= <-]. apply IH in E1. destruct E1 as (p1 & t1 & H1 & H).
        destruct (Nat.ltb (String.length t1) (String.length s)) eqn:El;
          [|discriminate].
        apply Nat.ltb_lt in El. apply IHf in H.
        destruct H as (p & t & H2 & H).
        exists p, t. split; [eapply lang_Star_more; eauto | exact H].
      * intros H. exists pos, s. split; [constructor | exact H].
Qed.

(** ... and finds a match whenever the pattern has one the continuation
    accepts. *)
Lemma bt_complete r pos s p t :
  lang r pos s p t ->
  (forall k, is_Some (k p t) -> is_Some (bt r pos s k))
  /\ (forall r' fuel k,
        r = Star r' -> String.length s <= fuel -> is_Some (k p t) ->
        is_Some (star (bt r') k fuel pos s)).
Proof.
  induction 1 as [pos s|s|c pos s|a pos s Ha|cs a pos s Ha
                 |r1 r2 pos s p1 t1 p t _ [IH1 _] _ [IH2 _]
                 |r1 r2 pos s p t _ [IH _]|r1 r2 pos s p t _ [IH _]
                 |r pos s|r pos s p1 t1 p t _ [IH1 _] Hlt _ [_ IH2]];
    try (split; [|discriminate]); cbn [bt].
  - auto.
  - auto.
  - intros k Hk. by rewrite Ascii.eqb_refl.
  - intros k Hk. by rewrite Ha.
  - intros k Hk. by rewrite Ha.
  - intros k Hk. apply IH1, IH2, Hk.
  - intros k Hk. destruct (IH k Hk) as [e ->]. eauto.
  - intros k Hk. destruct (bt r1 pos s k); [eauto | by apply IH].
  - split.
    + intros k Hk. by apply star_done.
    + intros r' fuel k _ _ Hk. by apply star_done.
  - assert (Hstar : forall fuel k,
              String.length s <= fuel -> is_Some (k p t) ->
              is_Some (star (bt r) k fuel pos s)).
    { intros [|fuel] k Hfuel Hk; [lia|].
      rewrite star_S.
      destruct (IH1 (fun p0 t0 =>
                  if Nat.ltb (String.length t0) (String.length s)
                  then star (bt r) k fuel p0 t0 else None)) as [e ->];
        [|eauto].
      apply Nat.ltb_lt in Hlt. rewrite Hlt.
      apply (IH2 r fuel k eq_refl); [|exact Hk].
      apply Nat.ltb_lt in Hlt. lia. }
    split.
    + intros k Hk. by apply Hstar.
    + intros r' fuel k [= <-]. apply Hstar.
Qed.

(** [pattern.match(s)] is not [None] exactly when the pattern matches a
    part of [s] that begins at its first character. *)
Lemma match__lang r s :
  is_Some (match_ r s) <-> exists e t, lang r 0 s e t.
Proof.
  unfold match_. split.
  - intros [e He]. apply bt_sound in He.
    destruct He as (p & t & Hl & _). eauto.
  - intros (e & t & Hl). apply (bt_complete _ _ _ _ _ Hl).
    unfold accept. eauto.
Qed.

(** [.*] matches at the start of every string. *)
Lemma match_all_total s : is_Some (match_ match_all s).
Proof.
  unfold match_, match_all. cbn [bt]. apply star_done.
  unfold accept. eauto.
Qed.

(** [.*[cs]], for a class with the newline in it, matches at an offset
    exactly when a character of the class follows. *)
Lemma dotstar_class cs fuel :
  in_class newline cs = true ->
  forall s pos, String.length s <= fuel ->
    (is_Some (star (bt Dot) (fun p t => bt (Class cs) p t accept) fuel pos s)
     <-> has_char_in cs s = true).
Proof.
  intros Hnl.
  set (step := bt Dot). set (k := fun p t => bt (Class cs) p t accept).
  induction fuel as [|fuel IH]; intros s pos Hlen.
  - destruct s as [|a s']; simpl in *; [|lia].
    split; [intros [x Hx]; discriminate | discriminate].
  - rewrite star_S. destruct s as [|a s'].
    + simpl. split; [intros [x Hx]; discriminate | discriminate].
    + assert (Hlt : Nat.ltb (String.length s') (String.length (String a s'))
                    = true) by (apply Nat.ltb_lt; simpl; lia).
      assert (Hle : String.length s' <= fuel) by (simpl in Hlen; lia).
      specialize (IH s' (S pos) Hle).
      assert (Hk : k pos (String a s')
                   = if in_class a cs then Some (S pos) else None)
        by reflexivity.
      rewrite Hk. unfold step at 1. cbn [bt has_char_in].
      destruct (Ascii.eqb a newline) eqn:Ea.
      * apply Ascii.eqb_eq in Ea. subst a. rewrite Hnl. simpl.
        split; eauto.
      * rewrite Hlt.
        destruct (star step k fuel (S pos) s') as [e|] eqn:Es.
        -- split; [intros _ | eauto].
           apply orb_true_iff. right. apply IH. eauto.
        -- destruct (in_class a cs) eqn:Ec; simpl.
           ++ split; eauto.
           ++ split; [intros [x Hx]; discriminate |].
              intros Hh. apply IH in Hh. destruct Hh; discriminate.
Qed.

Lemma nasty_at pos s :
  is_Some (bt nasty pos s accept)
  <-> (pos = 0 /\ starts_with_dot s = true)
      \/ has_char_in nasty_chars s = true.
Proof.
  unfold nasty. cbn [bt].
  pose proof (dotstar_class nasty_chars (String.length s) eq_refl s pos
                (le_n _)) as Hd.
  destruct pos as [|pos].
  - cbn [Nat.eqb]. destruct s as [|a s'].
    + cbn [starts_with_dot]. rewrite <- Hd.
      split; [eauto | intros [[_ H]|H]; [discriminate | exact H]].
    + cbn [starts_with_dot]. destruct (Ascii.eqb a ".") eqn:Ea.
      * unfold accept at 1. split; eauto.
      * rewrite <- Hd.
        split; [eauto | intros [[_ H]|H]; [discriminate | exact H]].
  - cbn [Nat.eqb]. rewrite <- Hd.
    split; [eauto | intros [[H _]|H]; [discriminate | exact H]].
Qed.

Lemma search_from_nasty s : forall pos,
  is_Some (search_from nasty pos s)
  <-> (pos = 0 /\ starts_with_dot s = true)
      \/ has_char_in nasty_chars s = true.
Proof.
  induction s as [|a s' IH]; intros pos.
  - cbn [search_from]. rewrite <- nasty_at.
    destruct (bt nasty pos "" accept); split; eauto;
      intros [x Hx]; discriminate.
  - cbn [search_from].
    pose proof (nasty_at pos (String a s')) as Hat.
    destruct (bt nasty pos (String a s') accept) as [e|].
    + split; [intros _; apply Hat; eauto | eauto].
    + rewrite IH. split.
      * intros [[H _]|H]; [discriminate |].
        right. cbn [has_char_in]. rewrite H. apply orb_true_r.
      * intros H. apply Hat in H. destruct H; discriminate.
Qed.

(** [re.search(r'^\.|.*[/$\0\n\t]', name)] finds something exactly when
    the name begins with a dot or has one of the five characters. *)
Lemma search_nasty s :
  is_Some (search nasty s)
  <-> starts_with_dot s = true \/ has_char_in nasty_chars s = true.
Proof.
  unfold search. rewrite search_from_nasty. intuition.
Qed.

End Matcher.

(** ** [TargetConfig.is_valid_name] *)

Lemma any_filter_matches_iff config name :
  any_filter_matches config name = true
  <-> exists f, In f (filters config) /\ is_Some (match_ f name).
Proof.
  unfold any_filter_matches. rewrite existsb_exists.
  split; intros [f [Hin Hf]]; exists f; split; auto.
  - destruct (match_ f name); [eauto | discriminate].
  - destruct Hf as [e ->]. reflexivity.
Qed.

Lemma is_valid_name_eq config name w :
  is_valid_name config name w
  = if any_filter_matches config name then
      match search nasty name with
      | Some m =>
          ({| fs := fs w;
              trace := trace w
                       ++ [Print ("name '" +:+ name
                                  +:+ "' is not allowed (contains '"
                                  +:+ group0 name m +:+ "')")] |},
           Ok false)
      | None => (w, Ok true)
      end
    else (w, Ok false).
Proof.
  unfold is_valid_name.
  destruct (any_filter_matches config name); simpl; [|reflexivity].
  destruct (search nasty name); reflexivity.
Qed.

Lemma is_valid_name_snd config name w :
  snd (is_valid_name config name w) = Ok (valid_name config name).
Proof.
  rewrite is_valid_name_eq. unfold valid_name.
  destruct (any_filter_matches config name); simpl; [|reflexivity].
  destruct (search nasty name); reflexivity.
Qed.

Lemma valid_name_iff config name :
  valid_name config name = true
  <-> (exists f, In f (filters config) /\ is_Some (match_ f name))
      /\ starts_with_dot name = false
      /\ has_char_in nasty_chars name = false.
Proof.
  unfold valid_name. rewrite andb_true_iff, any_filter_matches_iff.
  rewrite negb_true_iff.
  pose proof (search_nasty name) as Hs.
  destruct (search nasty name) as [m|]; simpl.
  - assert (Hn : starts_with_dot name = true
                 \/ has_char_in nasty_chars name = true)
      by (apply Hs; eauto).
    split; [intros [_ H]; discriminate |].
    intros (_ & Hd & Hc). destruct Hn; congruence.
  - assert (Hn : ~ (starts_with_dot name = true
                    \/ has_char_in nasty_chars name = true)).
    { intros H. apply Hs in H. destruct H; discriminate. }
    split; [intros [H _] | intros (H & _ & _); by split].
    split; [exact H |].
    destruct (starts_with_dot name), (has_char_in nasty_chars name); tauto.
Qed.

(** C1, as the program has it: [is_valid_name] returns [True] exactly when
    the name matches one of the configured patterns from its first
    character on, does not begin with ['.'] and has none of ['/'], ['$'],
    NUL, newline and tab; with the default filter every name that does not
    begin with ['.'] and has none of these five characters is valid. *)
Theorem is_valid_name_iff (config : TargetConfig) (name : string) (w : World) :
  (snd (is_valid_name config name w) = Ok true
   <-> (exists f, In f (filters config) /\ is_Some (match_ f name))
       /\ starts_with_dot name = false
       /\ has_char_in ["/"; "$"; "000"; "010"; "009"]%char name = false)
  /\ (forall p cmd,
        starts_with_dot name = false ->
        has_char_in ["/"; "$"; "000"; "010"; "009"]%char name = false ->
        snd (is_valid_name (TargetConfig_init p None cmd) name w) = Ok true).
Proof.
  split.
  - rewrite is_valid_name_snd. rewrite <- valid_name_iff.
    split; [intros H; by injection H | intros ->; reflexivity].
  - intros p cmd Hdot Hch. rewrite is_valid_name_snd. f_equal.
    apply valid_name_iff. split; [|split; assumption].
    exists match_all. split; [left; reflexivity | apply match_all_total].
Qed.

Lemma is_valid_name_iff_witness :
  snd (is_valid_name (TargetConfig_init "/srv/branches" None None)
                     "main" nothing) = Ok true.
Proof.
  apply (proj2 (is_valid_name_iff (TargetConfig_init "/srv/branches" None None)
                                  "main" nothing));
    reflexivity.
Defined.

(** C1, as the specification words it, fails on a name with a ['$']: the
    name matches the default pattern, does not begin with ['.'] and has none
    of ['/'], NUL, newline, tab, and [is_valid_name] returns [False]. *)
Lemma is_valid_name_rejects_dollar :
  let config := TargetConfig_init "/srv/branches" None None in
  ~ (snd (is_valid_name config "a$b" nothing) = Ok true
     <-> (exists f, In f (filters config) /\ is_Some (match_ f "a$b"))
         /\ starts_with_dot "a$b" = false
         /\ has_char_in ["/"; "000"; "010"; "009"]%char "a$b" = false).
Proof.
  intros config [_ H].
  assert (Hv : snd (is_valid_name config "a$b" nothing) = Ok true).
  { apply H. split; [|split; reflexivity].
    exists match_all. split; [left; reflexivity | apply match_all_total]. }
  vm_compute in Hv. discriminate.
Qed.

(** C10: a name that matches none of the configured patterns is rejected
    with nothing printed, whatever characters it has; a diagnostic is
    printed only for a name that matched a pattern. *)
Theorem is_valid_name_unmatched_silent
    (config : TargetConfig) (name : string) (w : World) :
  ((forall f, In f (filters config) -> match_ f name = None) ->
   is_valid_name config name w = (w, Ok false))
  /\ (trace (fst (is_valid_name config name w)) <> trace w ->
      exists f, In f (filters config) /\ is_Some (match_ f name)).
Proof.
  rewrite is_valid_name_eq.
  destruct (any_filter_matches config name) eqn:Hany.
  - apply any_filter_matches_iff in Hany. split; [|auto].
    intros Hnone. destruct Hany as [f [Hin [e He]]].
    rewrite (Hnone f Hin) in He. discriminate.
  - split; [reflexivity |]. simpl. congruence.
Qed.

Lemma is_valid_name_unmatched_silent_witness :
  is_valid_name (TargetConfig_init "/srv/tags" (Some [Chr "v"%char]) None)
                "a/b" nothing
  = (nothing, Ok false).
Proof.
  apply (proj1 (is_valid_name_unmatched_silent
                  (TargetConfig_init "/srv/tags" (Some [Chr "v"%char]) None)
                  "a/b" nothing)).
  intros f [<-|[]]. reflexivity.
Defined.

(** ** [TargetConfig.emit] *)



(** ** [Repo.get_diff] *)

Section GetDiff.

Variables before after : gmap string string.

Lemma elem_of_removed n :
  n ∈ removed (get_diff before after) <-> n ∈ dom before /\ n ∉ dom after.
Proof. unfold get_diff; simpl. rewrite elem_of_elements. set_solver. Qed.

Lemma elem_of_added n :
  n ∈ added (get_diff before after) <-> n ∈ dom after /\ n ∉ dom before.
Proof. unfold get_diff; simpl. rewrite elem_of_elements. set_solver. Qed.

Lemma elem_of_modified n :
  n ∈ modified (get_diff before after)
  <-> exists r1 r2, before !! n = Some r1 /\ after !! n = Some r2 /\ r1 <> r2.
Proof.
  unfold get_diff; simpl.
  rewrite elem_of_elements, elem_of_filter, elem_of_intersection.
  rewrite !elem_of_dom. split.
  - intros [Hne [[r1 H1] [r2 H2]]]. exists r1, r2. rewrite H1, H2 in Hne.
    repeat split; auto. congruence.
  - intros (r1 & r2 & H1 & H2 & Hne). rewrite H1, H2.
    split; [congruence | eauto].
Qed.

Lemma elem_of_unmodified n :
  n ∈ unmodified (get_diff before after)
  <-> exists r, before !! n = Some r /\ after !! n = Some r.
Proof.
  unfold get_diff; simpl.
  rewrite elem_of_elements, elem_of_difference, elem_of_filter,
    elem_of_intersection.
  rewrite !elem_of_dom. split.
  - intros [[[r1 H1] [r2 H2]] Hn]. exists r1. split; [done|].
    destruct (decide (r1 = r2)) as [->|Hne]; [done|].
    exfalso. apply Hn. rewrite H1, H2. split; [congruence | eauto].
  - intros (r & H1 & H2). rewrite H1, H2.
    split; [eauto | intros [Hne _]; congruence].
Qed.

End GetDiff.

Local Ltac bucket :=
  match goal with
  | |- elements ?X = [] =>
      replace X with (∅ : gset string);
      [apply elements_empty | symmetry]
  | |- elements ?X = elements ?Y => f_equal
  end;
  apply set_eq; intros ?;
  rewrite ?elem_of_difference, ?elem_of_filter, ?elem_of_intersection,
    ?dom_empty_L, ?elem_of_empty;
  tauto.

(** C2: [get_diff] returns the four buckets the specification describes,
    without repetition; no name lies in two of them, every name of [before]
    or [after] lies in one, and no other name does. With [before] empty all
    of [after] is added, with [after] empty all of [before] is removed, and
    the diff of a mapping with itself has all of it unmodified. *)
Theorem get_diff_partition (before after M' : gmap string string) :
  let d := get_diff before after in
  ((forall n, n ∈ removed d <-> n ∈ dom before /\ n ∉ dom after)
   /\ (forall n, n ∈ added d <-> n ∈ dom after /\ n ∉ dom before)
   /\ (forall n, n ∈ modified d
         <-> exists r1 r2,
               before !! n = Some r1 /\ after !! n = Some r2 /\ r1 <> r2)
   /\ (forall n, n ∈ unmodified d
         <-> exists r, before !! n = Some r /\ after !! n = Some r))
  /\ (NoDup (removed d) /\ NoDup (added d)
      /\ NoDup (modified d) /\ NoDup (unmodified d))
  /\ (forall n,
        ~ (n ∈ removed d /\ n ∈ added d)
        /\ ~ (n ∈ removed d /\ n ∈ modified d)
        /\ ~ (n ∈ removed d /\ n ∈ unmodified d)
        /\ ~ (n ∈ added d /\ n ∈ modified d)
        /\ ~ (n ∈ added d /\ n ∈ unmodified d)
        /\ ~ (n ∈ modified d /\ n ∈ unmodified d))
  /\ (forall n,
        n ∈ dom before ∪ dom after
        <-> n ∈ removed d \/ n ∈ added d
            \/ n ∈ modified d \/ n ∈ unmodified d)
  /\ get_diff ∅ M'
     = {| removed := []; added := elements (dom M');
          modified := []; unmodified := [] |}
  /\ get_diff M' ∅
     = {| removed := elements (dom M'); added := [];
          modified := []; unmodified := [] |}
  /\ get_diff M' M'
     = {| removed := []; added := [];
          modified := []; unmodified := elements (dom M') |}.
Proof.
  intros d. subst d.
  split; [|split; [|split; [|split]]].
  - split; [|split; [|split]]; intros n.
    + apply elem_of_removed.
    + apply elem_of_added.
    + apply elem_of_modified.
    + apply elem_of_unmodified.
  - unfold get_diff; simpl. repeat split; apply NoDup_elements.
  - intros n.
    rewrite elem_of_removed, elem_of_added, elem_of_modified,
      elem_of_unmodified, !elem_of_dom.
    repeat split.
    + intros [[[x Hx] Hn] [_ Hb]]. apply Hb. eauto.
    + intros [[_ Hn] (r1 & r2 & _ & H2 & _)]. apply Hn. eauto.
    + intros [[_ Hn] (r & _ & H2)]. apply Hn. eauto.
    + intros [[_ Hn] (r1 & r2 & H1 & _ & _)]. apply Hn. eauto.
    + intros [[_ Hn] (r & H1 & _)]. apply Hn. eauto.
    + intros [(r1 & r2 & H1 & H2 & Hne) (r & H1' & H2')]. congruence.
  - intros n.
    rewrite elem_of_removed, elem_of_added, elem_of_modified,
      elem_of_unmodified, elem_of_union, !elem_of_dom.
    split.
    + destruct (before !! n) as [r1|] eqn:H1, (after !! n) as [r2|] eqn:H2.
      * intros _. destruct (decide (r1 = r2)) as [->|Hne].
        -- do 3 right. eauto.
        -- do 2 right. left. eauto 6.
      * intros _. left. split; [eauto | intros [x Hx]; discriminate].
      * intros _. right. left. split; [eauto | intros [x Hx]; discriminate].
      * intros [[x Hx]|[x Hx]]; discriminate.
    + intros [[H ?]|[[H ?]|[(r1 & r2 & H & ?)|(r & H & ?)]]]; eauto.
  - split; [|split]; unfold get_diff; f_equal; bucket.
Qed.

(** ** The loop bodies of [_remove] and [_add], step by step *)

Lemma said_nil w : said w [] = w.
Proof. destruct w. unfold said. simpl. by rewrite app_nil_r. Qed.

Local Ltac same_world :=
  repeat match goal with
         | w : World |- _ => destruct w
         end;
  unfold said; simpl;
  rewrite ?app_nil_r, <- ?app_assoc; simpl; reflexivity.

Lemma _remove_for env self refType config refNames :
  _remove env self refType config refNames
  = for_ refNames (remove_one env refType config).
Proof. reflexivity. Qed.

Lemma _add_for env self refType config refNames :
  _add env self refType config refNames
  = for_ refNames (add_one env self refType config).
Proof. reflexivity. Qed.

Lemma is_valid_name_said config name w :
  is_valid_name config name w
  = (said w (diagnostics config name), Ok (valid_name config name)).
Proof.
  rewrite is_valid_name_eq. unfold diagnostics, valid_name.
  destruct (any_filter_matches config name); simpl.
  - destruct (search nasty name); simpl; [reflexivity |].
    by rewrite said_nil.
  - by rewrite said_nil.
Qed.

Lemma diagnostics_valid config name :
  valid_name config name = true -> diagnostics config name = [].
Proof.
  unfold valid_name, diagnostics.
  destruct (any_filter_matches config name); [|reflexivity].
  destruct (search nasty name); [discriminate | reflexivity].
Qed.

Lemma emit_eq env config refType event name desc w :
  emit env config refType event name (Some desc) w
  = if hook_ok env config
    then (said w (hook_calls config refType event name desc), Ok tt)
    else (w, Raise (OSError (default "" (eventCmd config)))).
Proof.
  unfold emit, hook_ok, hook_calls.
  destruct (eventCmd config) as [cmd|]; simpl.
  - unfold bind, subprocess_call. simpl.
    destruct (executable env cmd); reflexivity.
  - unfold ret. by rewrite said_nil.
Qed.

Lemma remove_one_eq env refType config name w :
  remove_one env refType config name w
  = let p := target config name in
    if valid_name config name then
      match fs w !! p with
      | None => (w, Ok tt)
      | Some nd =>
          if hook_ok env config then
            match nd with
            | File =>
                (said w (hook_calls config refType "pre-remove" name
                                    ("about to remove path " +:+ p)),
                 Raise (OSError p))
            | _ =>
                ({| fs := delete p (fs w);
                    trace := trace w
                      ++ hook_calls config refType "pre-remove" name
                                    ("about to remove path " +:+ p)
                      ++ [Rmtree p]
                      ++ hook_calls config refType "post-remove" name
                                    ("removed path " +:+ p) |},
                 Ok tt)
            end
          else (w, Raise (OSError (default "" (eventCmd config))))
      end
    else (said w (diagnostics config name), Ok tt).
Proof.
  unfold remove_one, bind at 1. rewrite is_valid_name_said.
  fold (target config name). cbv zeta.
  destruct (valid_name config name) eqn:Hv; simpl; [|reflexivity].
  rewrite (diagnostics_valid _ _ Hv), said_nil.
  unfold bind at 1, path_exists.
  destruct (fs w !! target config name) as [nd|] eqn:Hp; simpl;
    [|reflexivity].
  unfold bind at 1. rewrite emit_eq.
  destruct (hook_ok env config) eqn:Hh; [|reflexivity].
  unfold bind at 1, rmtree. simpl. rewrite Hp.
  destruct nd; try reflexivity;
    rewrite emit_eq, Hh; f_equal; same_world.
Qed.

Lemma add_one_eq env self refType config name w :
  add_one env self refType config name w
  = let p := target config name in
    if valid_name config name then
      match fs w !! p with
      | Some File => (said w [warning p], Raise (OSError p))
      | o =>
          let forced := match o with
                        | Some _ => [warning p; Rmtree p]
                        | None => []
                        end in
          if hook_ok env config then
            match resolve (repo self) name with
            | Some rev =>
                ({| fs := <[p := Checkout rev]> (fs w);
                    trace := trace w ++ forced
                      ++ hook_calls config refType "pre-add" name
                                    ("about to clone to path " +:+ p)
                      ++ [Clone p name]
                      ++ hook_calls config refType "post-add" name
                                    ("cloned to path " +:+ p) |},
                 Ok tt)
            | None =>
                ({| fs := delete p (fs w);
                    trace := trace w ++ forced
                      ++ hook_calls config refType "pre-add" name
                                    ("about to clone to path " +:+ p) |},
                 Raise (GitCommandError p name))
            end
          else ({| fs := delete p (fs w); trace := trace w ++ forced |},
                Raise (OSError (default "" (eventCmd config))))
      end
    else (said w (diagnostics config name), Ok tt).
Proof.
  unfold add_one, bind at 1. rewrite is_valid_name_said.
  fold (target config name). cbv zeta.
  destruct (valid_name config name) eqn:Hv; simpl; [|reflexivity].
  rewrite (diagnostics_valid _ _ Hv), said_nil.
  unfold bind at 1, path_exists.
  destruct (fs w !! target config name) as [nd|] eqn:Hp; simpl.
  - unfold bind at 1 2. unfold print_stderr, log, rmtree. simpl.
    rewrite Hp.
    destruct nd; try reflexivity;
      (unfold bind at 1; rewrite emit_eq;
       destruct (hook_ok env config) eqn:Hh;
       [|f_equal; same_world];
       unfold bind at 1, clone; simpl; rewrite lookup_delete_eq;
       destruct (resolve (repo self) name) as [r|];
       [|f_equal; same_world];
       rewrite emit_eq, Hh, insert_delete_eq; f_equal; same_world).
  - unfold bind at 1. unfold ret at 1.
    unfold bind at 1; rewrite emit_eq.
    destruct (hook_ok env config) eqn:Hh;
      [|rewrite (delete_id _ _ Hp); f_equal; same_world].
    unfold bind at 1, clone; simpl. rewrite Hp.
    destruct (resolve (repo self) name) as [r|];
      [|rewrite (delete_id _ _ Hp); f_equal; same_world].
    rewrite emit_eq, Hh. f_equal; same_world.
Qed.

(** ** Loops: what a run does, from what each iteration does *)

Lemma grows_refl P T w : grows P T w w.
Proof.
  split; [|reflexivity]. exists []. by rewrite app_nil_r.
Qed.

Lemma grows_trans P T w1 w2 w3 :
  grows P T w1 w2 -> grows P T w2 w3 -> grows P T w1 w3.
Proof.
  intros [(d1 & Ht1 & Hd1) Hf1] [(d2 & Ht2 & Hd2) Hf2]. split.
  - exists (d1 ++ d2). rewrite Ht2, Ht1, app_assoc.
    split; [reflexivity | by apply Forall_app].
  - intros p Hp. rewrite (Hf2 p Hp). by apply Hf1.
Qed.


Lemma grows_said P T w d : Forall P d -> grows P T w (said w d).
Proof. intros Hd. split; [by exists d | reflexivity]. Qed.

Lemma for__cons {A : Type} (x : A) l body w :
  for_ (x :: l) body w
  = match body x w with
    | (w', Ok _) => for_ l body w'
    | (w', Raise e) => (w', Raise e)
    end.
Proof. reflexivity. Qed.

Lemma for__grows {A : Type} P T (E : exn -> Prop) (body : A -> M unit) l :
  (forall x w, In x l ->
     grows P T w (fst (body x w))
     /\ forall e, snd (body x w) = Raise e -> E e) ->
  forall w,
    grows P T w (fst (for_ l body w))
    /\ forall e, snd (for_ l body w) = Raise e -> E e.
Proof.
  induction l as [|x l IH]; intros Hbody w.
  - split; [apply grows_refl | discriminate].
  - rewrite for__cons.
    destruct (Hbody x w (or_introl eq_refl)) as [Hg He].
    destruct (body x w) as [w1 [[]|e]]; simpl in *.
    + destruct (IH (fun y v Hy => Hbody y v (or_intror Hy)) w1) as [Hg' He'].
      split; [eapply grows_trans; eauto | exact He'].
    + split; [exact Hg |]. intros e' [= <-]. by apply He.
Qed.

Lemma in_valid_targets config names p :
  In p (valid_targets config names)
  <-> exists n, In n names /\ valid_name config n = true
                /\ p = target config n.
Proof.
  unfold valid_targets. rewrite in_map_iff. split.
  - intros (n & <- & Hn). apply filter_In in Hn. exists n. tauto.
  - intros (n & Hin & Hv & ->). exists n. split; [done|].
    apply filter_In. tauto.
Qed.

Lemma target_inj config : Inj (=) (=) (target config).
Proof.
  intros n1 n2 H. unfold target in H.
  apply (String.app_inj (path config)) in H.
  by apply (String.app_inj "/") in H.
Qed.

Lemma Forall_hook_calls (P : action -> Prop) config refType event name desc :
  (forall cmd, P (Call [cmd; refType; event; name; desc])) ->
  Forall P (hook_calls config refType event name desc).
Proof.
  intros H. unfold hook_calls. destruct (eventCmd config); auto.
Qed.

Lemma Forall_diagnostics (P : action -> Prop) config name :
  (forall msg, P (Print msg)) -> Forall P (diagnostics config name).
Proof.
  intros H. unfold diagnostics.
  destruct (any_filter_matches config name); [|auto].
  destruct (search nasty name); auto.
Qed.

Lemma remove_one_grows env refType config names name w :
  In name names ->
  grows (remove_action config names) (fun p => In p (valid_targets config names))
        w (fst (remove_one env refType config name w))
  /\ forall e, snd (remove_one env refType config name w) = Raise e ->
               external e.
Proof.
  intros Hin. rewrite remove_one_eq. cbv zeta.
  destruct (valid_name config name) eqn:Hv.
  - assert (Ht : In (target config name) (valid_targets config names))
      by (apply in_valid_targets; eauto).
    destruct (fs w !! target config name) as [nd|] eqn:Hp.
    + destruct (hook_ok env config).
      * assert (Hpre : Forall (remove_action config names)
                  (hook_calls config refType "pre-remove" name
                     ("about to remove path " +:+ target config name)))
          by (apply Forall_hook_calls; intros; by left).
        assert (Hpost : Forall (remove_action config names)
                  (hook_calls config refType "post-remove" name
                     ("removed path " +:+ target config name)))
          by (apply Forall_hook_calls; intros; by right).
        assert (Hdel : forall p, ~ In p (valid_targets config names) ->
                  delete (target config name) (fs w) !! p = fs w !! p).
        { intros p Hn. apply lookup_delete_ne. congruence. }
        destruct nd; simpl.
        -- split; [|discriminate]. split; [|exact Hdel].
           eexists; split; [reflexivity|].
           apply Forall_app; split; [done|].
           apply Forall_cons; split; [exact Ht | done].
        -- split; [|discriminate]. split; [|exact Hdel].
           eexists; split; [reflexivity|].
           apply Forall_app; split; [done|].
           apply Forall_cons; split; [exact Ht | done].
        -- split; [by apply grows_said | by intros e [= <-]].
      * simpl. split; [apply grows_refl | by intros e [= <-]].
    + simpl. split; [apply grows_refl | discriminate].
  - simpl. split; [|discriminate].
    apply grows_said, Forall_diagnostics. done.
Qed.

Lemma add_one_grows env self refType config names name w :
  In name names ->
  grows (add_action config names) (fun p => In p (valid_targets config names))
        w (fst (add_one env self refType config name w))
  /\ forall e, snd (add_one env self refType config name w) = Raise e ->
               external e.
Proof.
  intros Hin. rewrite add_one_eq. cbv zeta.
  destruct (valid_name config name) eqn:Hv.
  - assert (Ht : In (target config name) (valid_targets config names))
      by (apply in_valid_targets; eauto).
    assert (Hpre : Forall (add_action config names)
              (hook_calls config refType "pre-add" name
                 ("about to clone to path " +:+ target config name)))
      by (apply Forall_hook_calls; intros; by left).
    assert (Hpost : Forall (add_action config names)
              (hook_calls config refType "post-add" name
                 ("cloned to path " +:+ target config name)))
      by (apply Forall_hook_calls; intros; by right).
    assert (Hdel : forall p, ~ In p (valid_targets config names) ->
              delete (target config name) (fs w) !! p = fs w !! p).
    { intros p Hn. apply lookup_delete_ne. congruence. }
    assert (Hins : forall r p, ~ In p (valid_targets config names) ->
              <[target config name := Checkout r]> (fs w) !! p = fs w !! p).
    { intros r p Hn. apply lookup_insert_ne. congruence. }
    assert (Hforced : forall o : option node,
              Forall (add_action config names)
                match o with
                | Some _ => [warning (target config name);
                             Rmtree (target config name)]
                | None => []
                end).
    { intros [?|]; [|done].
      apply Forall_cons; split; [exact I|].
      apply Forall_cons; split; [exact Ht | done]. }
    assert (Hclone : add_action config names
                       (Clone (target config name) name))
      by (simpl; auto).
    assert (Hgen : forall o : option node,
      let forced := match o with
                    | Some _ => [warning (target config name);
                                 Rmtree (target config name)]
                    | None => []
                    end in
      let res : World * outcome unit :=
        if hook_ok env config then
          match resolve (repo self) name with
          | Some r =>
              ({| fs := <[target config name := Checkout r]> (fs w);
                  trace := trace w ++ forced
                    ++ hook_calls config refType "pre-add" name
                         ("about to clone to path " +:+ target config name)
                    ++ [Clone (target config name) name]
                    ++ hook_calls config refType "post-add" name
                         ("cloned to path " +:+ target config name) |},
               Ok tt)
          | None =>
              ({| fs := delete (target config name) (fs w);
                  trace := trace w ++ forced
                    ++ hook_calls config refType "pre-add" name
                         ("about to clone to path "
                          +:+ target config name) |},
               Raise (GitCommandError (target config name) name))
          end
        else ({| fs := delete (target config name) (fs w);
                 trace := trace w ++ forced |},
              Raise (OSError (default "" (eventCmd config)))) in
      grows (add_action config names)
            (fun p => In p (valid_targets config names)) w (fst res)
      /\ forall e, snd res = Raise e -> external e).
    { intros o forced res. subst res.
      specialize (Hforced o). fold forced in Hforced.
      destruct (hook_ok env config);
        [destruct (resolve (repo self) name) as [r|]|]; simpl.
      - split; [|discriminate]. split; [|apply Hins].
        eexists; split; [reflexivity|].
        repeat (apply Forall_app; split; [done|]).
        apply Forall_cons; split; [exact Hclone | done].
      - split; [|by intros e [= <-]]. split; [|exact Hdel].
        eexists; split; [reflexivity|].
        apply Forall_app; split; done.
      - split; [|by intros e [= <-]]. split; [|exact Hdel].
        eexists; split; [reflexivity | done]. }
    destruct (fs w !! target config name) as [[r| |]|] eqn:Hp.
    + apply (Hgen (Some (Checkout r))).
    + apply (Hgen (Some Dir)).
    + simpl. split; [|by intros e [= <-]].
      apply grows_said. apply Forall_cons; split; [exact I | done].
    + apply (Hgen None).
  - simpl. split; [|discriminate].
    apply grows_said, Forall_diagnostics. done.
Qed.

Lemma _remove_grows env self refType config names w :
  grows (remove_action config names) (fun p => In p (valid_targets config names))
        w (fst (_remove env self refType config names w))
  /\ forall e, snd (_remove env self refType config names w) = Raise e ->
               external e.
Proof.
  rewrite _remove_for. apply for__grows.
  intros x v Hx. by apply remove_one_grows.
Qed.

Lemma _add_grows env self refType config names w :
  grows (add_action config names) (fun p => In p (valid_targets config names))
        w (fst (_add env self refType config names w))
  /\ forall e, snd (_add env self refType config names w) = Raise e ->
               external e.
Proof.
  rewrite _add_for. apply for__grows.
  intros x v Hx. by apply add_one_grows.
Qed.

Lemma _apply_diff_configured env self refType diff config w :
  configured self refType config ->
  _apply_diff env self refType diff w
  = match _remove env self refType config
                  (removed diff ++ modified diff) w with
    | (w', Ok _) =>
        _add env self refType config (modified diff ++ added diff) w'
    | (w', Raise e) => (w', Raise e)
    end.
Proof.
  intros [[-> Hc]|[-> Hc]]; unfold _apply_diff, bind at 1; simpl;
    rewrite Hc; reflexivity.
Qed.

(** ** [MirrorHub._apply_diff] *)



Lemma configured_dec self refType :
  (exists config, configured self refType config)
  \/ (forall config, ~ configured self refType config).
Proof.
  unfold configured.
  destruct (String.eqb refType "branches") eqn:Eb.
  - apply String.eqb_eq in Eb. subst.
    destruct (branchesConfig self) as [c|] eqn:Hc.
    + left. exists c. auto.
    + right. intros c [[_ H]|[H _]]; discriminate.
  - apply String.eqb_neq in Eb.
    destruct (String.eqb refType "tags") eqn:Et.
    + apply String.eqb_eq in Et. subst.
      destruct (tagsConfig self) as [c|] eqn:Hc.
      * left. exists c. auto.
      * right. intros c [[H _]|[_ H]]; discriminate.
    + apply String.eqb_neq in Et.
      right. intros c [[H _]|[H _]]; contradiction.
Qed.

(** C8: with a [refType] that is neither ['branches'] nor ['tags'],
    [_apply_diff] raises [ValueError] and the world is as it was, whatever
    the hub is configured with; with one of the two it raises no
    [ValueError]. *)
Theorem apply_diff_refType
    (env : Env) (self : MirrorHub) (refType : string) (diff : RefDiff)
    (w : World) :
  (refType <> "branches" -> refType <> "tags" ->
   _apply_diff env self refType diff w
   = (w, Raise (ValueError "refType must be 'branches' or 'tags'")))
  /\ (refType = "branches" \/ refType = "tags" ->
      forall msg,
        snd (_apply_diff env self refType diff w) <> Raise (ValueError msg)).
Proof.
  split.
  - intros Hb Ht. apply String.eqb_neq in Hb, Ht.
    unfold _apply_diff, bind at 1. rewrite Hb, Ht. reflexivity.
  - intros Hrt msg.
    destruct (configured_dec self refType) as [[config Hc]|Hn].
    + rewrite (_apply_diff_configured _ _ _ _ _ _ Hc).
      pose proof (_remove_grows env self refType config
                    (removed diff ++ modified diff) w) as [_ Hr].
      destruct (_remove env self refType config
                        (removed diff ++ modified diff) w)
        as [w1 [[]|e]]; simpl in *.
      * pose proof (_add_grows env self refType config
                      (modified diff ++ added diff) w1) as [_ Ha].
        intros H. by apply Ha in H.
      * intros [= ->]. by apply (Hr _ eq_refl).
    + unfold _apply_diff, bind at 1.
      destruct Hrt as [-> | ->]; simpl.
      * destruct (branchesConfig self) as [c|] eqn:Hc; [|discriminate].
        exfalso. apply (Hn c). left. auto.
      * destruct (tagsConfig self) as [c|] eqn:Hc; [|discriminate].
        exfalso. apply (Hn c). right. auto.
Qed.

Lemma apply_diff_refType_witness :
  _apply_diff failing_hook example_hub "remotes" (diff_of [] ["main"] [])
              example_world
  = (example_world, Raise (ValueError "refType must be 'branches' or 'tags'")).
Proof.
  apply (proj1 (apply_diff_refType failing_hook example_hub "remotes"
                  (diff_of [] ["main"] []) example_world));
    discriminate.
Defined.

(** C3: what [_apply_diff] does for a namespace is what [_remove] does for
    the removed and modified names, followed by what [_add] does for the
    modified and added names; the first part has no clone and no add
    event in it, and when [_remove] raises there is no second part. For
    the diff that removes and adds ["x"], the directory of ["x"] is deleted
    and [post-remove] is emitted before [pre-add] and the clone. *)
Theorem removals_before_additions
    (env : Env) (self : MirrorHub) (refType : string) (diff : RefDiff)
    (config : TargetConfig) (w : World) :
  configured self refType config ->
  (exists w_mid o d_rm d_add,
     _remove env self refType config (removed diff ++ modified diff) w
     = (w_mid, o)
     /\ trace w_mid = trace w ++ d_rm
     /\ (forall p b, ~ In (Clone p b) d_rm)
     /\ (forall args, In (Call args) d_rm ->
           event_of args <> "pre-add" /\ event_of args <> "post-add")
     /\ trace (fst (_apply_diff env self refType diff w))
        = trace w ++ d_rm ++ d_add
     /\ match o with
        | Ok _ =>
            trace (fst (_add env self refType config
                             (modified diff ++ added diff) w_mid))
            = trace w_mid ++ d_add
        | Raise _ => d_add = []
        end)
  /\ trace (fst (_apply_diff failing_hook example_hub "branches"
                             (diff_of ["x"] ["x"] []) example_world))
     = [Call ["/bin/hook"; "branches"; "pre-remove"; "x";
              "about to remove path /srv/branches/x"];
        Rmtree "/srv/branches/x";
        Call ["/bin/hook"; "branches"; "post-remove"; "x";
              "removed path /srv/branches/x"];
        Call ["/bin/hook"; "branches"; "pre-add"; "x";
              "about to clone to path /srv/branches/x"];
        Clone "/srv/branches/x" "x";
        Call ["/bin/hook"; "branches"; "post-add"; "x";
              "cloned to path /srv/branches/x"]].
Proof.
  intros Hc. split; [|vm_compute; reflexivity].
  rewrite (_apply_diff_configured _ _ _ _ _ _ Hc).
  pose proof (_remove_grows env self refType config
                (removed diff ++ modified diff) w) as [[(d_rm & Ht & Hd) _] _].
  destruct (_remove env self refType config
                    (removed diff ++ modified diff) w) as [w_mid o] eqn:Hrm.
  simpl in Ht.
  assert (Hnc : forall p b, ~ In (Clone p b) d_rm).
  { intros p b Hin. rewrite List.Forall_forall in Hd. exact (Hd _ Hin). }
  assert (Hne : forall args, In (Call args) d_rm ->
            event_of args <> "pre-add" /\ event_of args <> "post-add").
  { intros args Hin. rewrite List.Forall_forall in Hd.
    destruct (Hd _ Hin) as [-> | ->]; split; discriminate. }
  destruct o as [[]|e].
  - pose proof (_add_grows env self refType config
                  (modified diff ++ added diff) w_mid)
      as [[(d_add & Ht' & _) _] _].
    exists w_mid, (Ok tt), d_rm, d_add.
    split; [reflexivity|]. split; [exact Ht|]. split; [exact Hnc|].
    split; [exact Hne|]. split; [|exact Ht'].
    rewrite Ht', Ht. by rewrite app_assoc.
  - exists w_mid, (Raise e), d_rm, [].
    split; [reflexivity|]. split; [exact Ht|]. split; [exact Hnc|].
    split; [exact Hne|]. split; [|reflexivity].
    simpl. by rewrite app_nil_r.
Qed.

Lemma removals_before_additions_witness :
  exists w_mid o d_rm d_add,
    _remove failing_hook example_hub "branches"
            (TargetConfig_init "/srv/branches" None (Some "/bin/hook"))
            (["x"] ++ []) example_world
    = (w_mid, o)
    /\ trace w_mid = trace example_world ++ d_rm
    /\ (forall p b, ~ In (Clone p b) d_rm)
    /\ (forall args, In (Call args) d_rm ->
          event_of args <> "pre-add" /\ event_of args <> "post-add")
    /\ trace (fst (_apply_diff failing_hook example_hub "branches"
                               (diff_of ["x"] ["x"] []) example_world))
       = trace example_world ++ d_rm ++ d_add
    /\ match o with
       | Ok _ =>
           trace (fst (_add failing_hook example_hub "branches"
                            (TargetConfig_init "/srv/branches" None
                                               (Some "/bin/hook"))
                            ([] ++ ["x"]) w_mid))
           = trace w_mid ++ d_add
       | Raise _ => d_add = []
       end.
Proof.
  apply (proj1 (removals_before_additions failing_hook example_hub "branches"
                  (diff_of ["x"] ["x"] [])
                  (TargetConfig_init "/srv/branches" None (Some "/bin/hook"))
                  example_world
                  (or_introl (conj eq_refl eq_refl)))).
Defined.






(** C9: the only events [_add] emits are [pre-add] and [post-add], never
    [pre-remove] or [post-remove]; for a valid name whose directory is
    there, [_add] prints the warning, deletes the directory, and goes on
    with [pre-add], the clone and [post-add]. *)
Theorem add_emits_no_remove_events
    (env : Env) (self : MirrorHub) (refType : string)
    (config : TargetConfig) (names : list string) (w : World) :
  (exists d,
     trace (fst (_add env self refType config names w)) = trace w ++ d
     /\ forall args, In (Call args) d ->
          (event_of args = "pre-add" \/ event_of args = "post-add")
          /\ event_of args <> "pre-remove"
          /\ event_of args <> "post-remove")
  /\ (forall name nd r,
        valid_name config name = true ->
        fs w !! target config name = Some nd -> nd <> File ->
        hook_ok env config = true ->
        resolve (repo self) name = Some r ->
        _add env self refType config [name] w
        = ({| fs := <[target config name := Checkout r]> (fs w);
              trace := trace w
                ++ [warning (target config name);
                    Rmtree (target config name)]
                ++ hook_calls config refType "pre-add" name
                     ("about to clone to path " +:+ target config name)
                ++ [Clone (target config name) name]
                ++ hook_calls config refType "post-add" name
                     ("cloned to path " +:+ target config name) |},
            Ok tt)).
Proof.
  split.
  - pose proof (_add_grows env self refType config names w)
      as [[(d & Ht & Hd) _] _].
    exists d. split; [exact Ht|].
    intros args Hin. rewrite List.Forall_forall in Hd.
    pose proof (Hd _ Hin) as Hev. simpl in Hev.
    split; [exact Hev|].
    destruct Hev as [-> | ->]; split; discriminate.
  - intros name nd r Hv Hp Hnd Hh Hr.
    rewrite _add_for, for__cons, add_one_eq. cbv zeta.
    rewrite Hv, Hp, Hh, Hr.
    destruct nd; [reflexivity | reflexivity | contradiction].
Qed.

Lemma add_emits_no_remove_events_witness :
  _add failing_hook example_hub "branches"
       (TargetConfig_init "/srv/branches" None (Some "/bin/hook"))
       ["main"] example_world
  = ({| fs := <["/srv/branches/main" := Checkout "def"]> (fs example_world);
        trace := [warning "/srv/branches/main";
                  Rmtree "/srv/branches/main";
                  Call ["/bin/hook"; "branches"; "pre-add"; "main";
                        "about to clone to path /srv/branches/main"];
                  Clone "/srv/branches/main" "main";
                  Call ["/bin/hook"; "branches"; "post-add"; "main";
                        "cloned to path /srv/branches/main"]] |},
      Ok tt).
Proof.
  apply (proj2 (add_emits_no_remove_events failing_hook example_hub "branches"
                  (TargetConfig_init "/srv/branches" None (Some "/bin/hook"))
                  ["main"] example_world)
               "main" (Checkout "abc") "def");
    first [reflexivity | discriminate].
Defined.

(** ** The file system after [_remove] and [_add] *)








Section FileSystem.

Variables (env : Env) (self : MirrorHub) (config : TargetConfig).









End FileSystem.

(** ** Applying a diff twice *)

Section Twice.

Variables (env : Env) (self : MirrorHub) (config : TargetConfig).



End Twice.



(** C4: with [main] modified and [dev] added, both valid, the checkout of
    [main] there and that of [dev] not, [_apply_diff] deletes the checkout
    of [main], clones [main] and [dev] at the revisions of the mirror, and
    calls the hook for pre-remove, post-remove, pre-add, post-add of [main]
    and then pre-add, post-add of [dev], in this order and for nothing
    else. *)
Theorem modified_main_added_dev
    (env : Env) (self : MirrorHub) (refType : string)
    (config : TargetConfig) (w : World) (cmd old r_main r_dev : string) :
  configured self refType config ->
  eventCmd config = Some cmd -> executable env cmd = true ->
  (forall v, snd (is_valid_name config "main" v) = Ok true) ->
  (forall v, snd (is_valid_name config "dev" v) = Ok true) ->
  fs w !! target config "main" = Some (Checkout old) ->
  fs w !! target config "dev" = None ->
  resolve (repo self) "main" = Some r_main ->
  resolve (repo self) "dev" = Some r_dev ->
  _apply_diff env self refType (diff_of [] ["dev"] ["main"]) w
  = ({| fs := <[target config "dev" := Checkout r_dev]>
                (<[target config "main" := Checkout r_main]> (fs w));
        trace := trace w ++
          [Call [cmd; refType; "pre-remove"; "main";
                 "about to remove path " +:+ target config "main"];
           Rmtree (target config "main");
           Call [cmd; refType; "post-remove"; "main";
                 "removed path " +:+ target config "main"];
           Call [cmd; refType; "pre-add"; "main";
                 "about to clone to path " +:+ target config "main"];
           Clone (target config "main") "main";
           Call [cmd; refType; "post-add"; "main";
                 "cloned to path " +:+ target config "main"];
           Call [cmd; refType; "pre-add"; "dev";
                 "about to clone to path " +:+ target config "dev"];
           Clone (target config "dev") "dev";
           Call [cmd; refType; "post-add"; "dev";
                 "cloned to path " +:+ target config "dev"]] |},
      Ok tt).
Proof.
  intros Hc Hcmd Hexe Hvm Hvd Hm Hd Hrm Hrd.
  assert (Hmain : valid_name config "main" = true).
  { specialize (Hvm nothing). rewrite is_valid_name_snd in Hvm. congruence. }
  assert (Hdev : valid_name config "dev" = true).
  { specialize (Hvd nothing). rewrite is_valid_name_snd in Hvd. congruence. }
  assert (Hh : hook_ok env config = true)
    by (unfold hook_ok; by rewrite Hcmd).
  assert (Hne : target config "main" <> target config "dev").
  { intros Heq. apply target_inj in Heq. discriminate. }
  rewrite (_apply_diff_configured _ _ _ _ _ _ Hc). simpl.
  rewrite _remove_for, for__cons, remove_one_eq. cbv zeta.
  rewrite Hmain, Hm, Hh. simpl for_. unfold ret.
  rewrite _add_for, for__cons, add_one_eq. cbv zeta. simpl fs.
  rewrite Hmain, lookup_delete_eq, Hh, Hrm.
  rewrite for__cons, add_one_eq. cbv zeta. simpl fs.
  rewrite Hdev, lookup_insert_ne, lookup_delete_ne, Hd, Hh, Hrd by exact Hne.
  simpl for_. unfold ret, hook_calls. rewrite Hcmd.
  rewrite insert_delete_eq. f_equal. f_equal.
  simpl. rewrite <- !app_assoc. reflexivity.
Qed.

Lemma modified_main_added_dev_witness :
  _apply_diff failing_hook example_hub "branches"
              (diff_of [] ["dev"] ["main"]) example_world
  = ({| fs := <["/srv/branches/dev" := Checkout "111"]>
                (<["/srv/branches/main" := Checkout "def"]>
                   (fs example_world));
        trace :=
          [Call ["/bin/hook"; "branches"; "pre-remove"; "main";
                 "about to remove path /srv/branches/main"];
           Rmtree "/srv/branches/main";
           Call ["/bin/hook"; "branches"; "post-remove"; "main";
                 "removed path /srv/branches/main"];
           Call ["/bin/hook"; "branches"; "pre-add"; "main";
                 "about to clone to path /srv/branches/main"];
           Clone "/srv/branches/main" "main";
           Call ["/bin/hook"; "branches"; "post-add"; "main";
                 "cloned to path /srv/branches/main"];
           Call ["/bin/hook"; "branches"; "pre-add"; "dev";
                 "about to clone to path /srv/branches/dev"];
           Clone "/srv/branches/dev" "dev";
           Call ["/bin/hook"; "branches"; "post-add"; "dev";
                 "cloned to path /srv/branches/dev"]] |},
      Ok tt).
Proof.
  apply (modified_main_added_dev failing_hook example_hub "branches"
           (TargetConfig_init "/srv/branches" None (Some "/bin/hook"))
           example_world "/bin/hook" "abc" "def" "111"
           (or_introl (conj eq_refl eq_refl)) eq_refl eq_refl
           (fun v => eq_refl) (fun v => eq_refl));
    reflexivity.
Defined.

(** ** More about [Repo.get_diff] *)

Lemma get_diff_same (m : gmap string string) :
  get_diff m m
  = {| removed := []; added := []; modified := [];
       unmodified := elements (dom m) |}.
Proof. unfold get_diff; f_equal; bucket. Qed.



(** X2: the buckets account for every key once: removed, modified and
    unmodified together are as many as the keys of [before]; added,
    modified and unmodified as many as the keys of [after]; and the keys
    of [after] are those of [before] without the removed and with the
    added names. *)
Theorem get_diff_counts (before after : gmap string string) :
  let d := get_diff before after in
  length (removed d) + length (modified d) + length (unmodified d)
  = size before
  /\ length (added d) + length (modified d) + length (unmodified d)
     = size after
  /\ dom after
     = (dom before ∖ list_to_set (removed d)) ∪ list_to_set (added d).
Proof.
  intros d. subst d. unfold get_diff; simpl.
  set (md := filter (fun name => before !! name ≠ after !! name)
                    (dom before ∩ dom after) : gset string).
  assert (Hmd : md ⊆ dom before ∩ dom after).
  { intros x Hx. by apply elem_of_filter in Hx as [_ Hx]. }
  assert (Hb : dom before
               = (dom before ∖ dom after) ∪ md
                 ∪ ((dom before ∩ dom after) ∖ md)).
  { apply set_eq. intros x.
    rewrite !elem_of_union, !elem_of_difference, elem_of_intersection.
    specialize (Hmd x). rewrite elem_of_intersection in Hmd.
    destruct (decide (x ∈ dom after)), (decide (x ∈ md)); tauto. }
  assert (Ha : dom after
               = (dom after ∖ dom before) ∪ md
                 ∪ ((dom before ∩ dom after) ∖ md)).
  { apply set_eq. intros x.
    rewrite !elem_of_union, !elem_of_difference, elem_of_intersection.
    specialize (Hmd x). rewrite elem_of_intersection in Hmd.
    destruct (decide (x ∈ dom before)), (decide (x ∈ md)); tauto. }
  assert (Hsize : forall X Y Z : gset string,
            X ## Y -> X ∪ Y ## Z ->
            length (elements X) + length (elements Y) + length (elements Z)
            = size (X ∪ Y ∪ Z)).
  { intros X Y Z H1 H2. rewrite !size_union by done. reflexivity. }
  split; [|split].
  - transitivity (size (dom before : gset string)); [|apply size_dom].
    rewrite Hsize; [by rewrite <- Hb | |].
    + intros x. rewrite elem_of_difference. intros [_ Hn] Hx.
      apply Hmd, elem_of_intersection in Hx. tauto.
    + intros x. rewrite elem_of_union, !elem_of_difference,
        elem_of_intersection. tauto.
  - transitivity (size (dom after : gset string)); [|apply size_dom].
    rewrite Hsize; [by rewrite <- Ha | |].
    + intros x. rewrite elem_of_difference. intros [_ Hn] Hx.
      apply Hmd, elem_of_intersection in Hx. tauto.
    + intros x. rewrite elem_of_union, !elem_of_difference,
        elem_of_intersection. tauto.
  - rewrite !list_to_set_elements_L. apply set_eq. intros x.
    rewrite elem_of_union, !elem_of_difference.
    destruct (decide (x ∈ dom before)), (decide (x ∈ dom after)); tauto.
Qed.

(** X3: nothing is removed, added or modified exactly when the two
    mappings are equal. *)
Theorem get_diff_nothing_iff (before after : gmap string string) :
  removed (get_diff before after) = []
  /\ added (get_diff before after) = []
  /\ modified (get_diff before after) = []
  <-> before = after.
Proof.
  split.
  - intros (Hr & Ha & Hm). apply map_eq. intros n.
    assert (Hnr : n ∉ removed (get_diff before after))
      by (rewrite Hr; apply not_elem_of_nil).
    assert (Hna : n ∉ added (get_diff before after))
      by (rewrite Ha; apply not_elem_of_nil).
    assert (Hnm : n ∉ modified (get_diff before after))
      by (rewrite Hm; apply not_elem_of_nil).
    rewrite elem_of_removed, !elem_of_dom in Hnr.
    rewrite elem_of_added, !elem_of_dom in Hna.
    rewrite elem_of_modified in Hnm.
    destruct (before !! n) as [r1|] eqn:H1, (after !! n) as [r2|] eqn:H2.
    + destruct (decide (r1 = r2)) as [->|Hne]; [done|].
      exfalso. apply Hnm. eauto.
    + exfalso. apply Hnr. split; [eauto | intros [x Hx]; discriminate].
    + exfalso. apply Hna. split; [eauto | intros [x Hx]; discriminate].
    + reflexivity.
  - intros <-. rewrite get_diff_same. auto.
Qed.

(** ** The diagnostic of [TargetConfig.is_valid_name] *)

Lemma search_from_unfold r pos s :
  search_from r pos s
  = match bt r pos s accept with
    | Some e => Some (pos, e)
    | None =>
        match s with
        | EmptyString => None
        | String _ s' => search_from r (S pos) s'
        end
    end.
Proof. destruct s; reflexivity. Qed.

Lemma star_dot_lang r pos s p t :
  lang r pos s p t -> r = Star Dot ->
  exists pre,
    s = pre +:+ t /\ p = pos + String.length pre
    /\ has_char_in [newline] pre = false.
Proof.
  induction 1 as [| | | | | | | |r pos s
                 |r pos s p1 t1 p t H1 _ Hlt _ IH]; try discriminate.
  - intros _. exists "". simpl. split; [reflexivity | split; [lia | done]].
  - intros [= ->]. destruct (IH eq_refl) as (pre & -> & -> & Hpre).
    inversion H1; subst.
    exists (String a pre). split; [reflexivity|]. split; [simpl; lia|].
    cbn [has_char_in in_class existsb].
    match goal with H : Ascii.eqb a newline = false |- _ => rewrite H end.
    by rewrite Hpre.
Qed.

Lemma substring_shown pre a t :
  substring 0 (String.length pre + 1) (pre +:+ String a t)
  = pre +:+ String a ""
  /\ pre +:+ String a t = (pre +:+ String a "") +:+ t.
Proof.
  induction pre as [|c pre [IH1 IH2]]; simpl.
  - split; [|reflexivity]. by destruct t.
  - split.
    + change (String c pre +:+ String a "")
        with (String c (pre +:+ String a "")). by f_equal.
    + change (String c (pre +:+ String a t)
              = String c ((pre +:+ String a "") +:+ t)). by f_equal.
Qed.

(** What a match of [r'^\.|.*[/$\0\n\t]'] at the start of a name is: the
    dot the name begins with, or a part without newline followed by one of
    the five characters. *)
Lemma nasty_shown name e :
  bt nasty 0 name accept = Some e ->
  exists shown rest,
    substring 0 e name = shown /\ name = shown +:+ rest
    /\ (shown = "."
        \/ exists pre a,
             shown = pre +:+ String a ""
             /\ in_class a nasty_chars = true
             /\ has_char_in [newline] pre = false).
Proof.
  intros Hbt. apply bt_sound in Hbt.
  destruct Hbt as (p & t & Hl & [= ->]).
  unfold nasty in Hl.
  inversion Hl as [| | | | | |? ? ? ? ? ? Hc|? ? ? ? ? ? Hc| |];
    subst; inversion Hc as [| | | | |? ? ? ? ? ? ? ? H1 H2| | | |]; subst.
  - inversion H1; subst. inversion H2; subst.
    exists ".", t. split; [by destruct t | split; [reflexivity | by left]].
  - inversion H2; subst.
    destruct (star_dot_lang _ _ _ _ _ H1 eq_refl) as (pre & -> & -> & Hnl).
    destruct (substring_shown pre a t) as [Hs1 Hs2].
    exists (pre +:+ String a ""), t.
    split; [|split; [exact Hs2 | right; eauto]].
    simpl. replace (S (String.length pre))
      with (String.length pre + 1) by lia. exact Hs1.
Qed.

(** X4: for a name that matches a filter and begins with a dot or has one
    of the five characters, [is_valid_name] prints one line and returns
    [False]; the text the line quotes is a beginning of the name: the dot,
    or everything up to and including one of the five characters, with no
    newline before it. *)
Theorem diagnostic_text (config : TargetConfig) (name : string) (w : World) :
  (exists f, In f (filters config) /\ is_Some (match_ f name)) ->
  starts_with_dot name = true
  \/ has_char_in ["/"; "$"; "000"; "010"; "009"]%char name = true ->
  exists shown rest,
    is_valid_name config name w
    = ({| fs := fs w;
          trace := trace w
            ++ [Print ("name '" +:+ name +:+ "' is not allowed (contains '"
                       +:+ shown +:+ "')")] |},
       Ok false)
    /\ name = shown +:+ rest
    /\ (shown = "."
        \/ exists pre a,
             shown = pre +:+ String a ""
             /\ in_class a ["/"; "$"; "000"; "010"; "009"]%char = true
             /\ has_char_in ["010"%char] pre = false).
Proof.
  intros Hf Hn. apply any_filter_matches_iff in Hf.
  assert (Hat : is_Some (bt nasty 0 name accept)).
  { apply nasty_at. destruct Hn; auto. }
  destruct Hat as [e He].
  destruct (nasty_shown _ _ He) as (shown & rest & Hs & Hname & Hshape).
  exists shown, rest. split; [|split; assumption].
  rewrite is_valid_name_eq, Hf. unfold search.
  rewrite search_from_unfold, He. unfold group0. simpl fst. simpl snd.
  by rewrite Nat.sub_0_r, Hs.
Qed.

Lemma diagnostic_text_witness :
  exists shown rest,
    is_valid_name (TargetConfig_init "/srv/branches" None None)
                  "feature/x" nothing
    = ({| fs := fs nothing;
          trace := trace nothing
            ++ [Print ("name '" +:+ "feature/x"
                       +:+ "' is not allowed (contains '"
                       +:+ shown +:+ "')")] |},
       Ok false)
    /\ "feature/x" = shown +:+ rest
    /\ (shown = "."
        \/ exists pre a,
             shown = pre +:+ String a ""
             /\ in_class a ["/"; "$"; "000"; "010"; "009"]%char = true
             /\ has_char_in ["010"%char] pre = false).
Proof.
  apply (diagnostic_text (TargetConfig_init "/srv/branches" None None)
           "feature/x" nothing).
  - exists match_all. split; [left; reflexivity | vm_compute; eauto].
  - right. reflexivity.
Defined.

(** ** An empty list of filters *)

Lemma is_valid_name_no_filters config name w :
  filters config = [] -> is_valid_name config name w = (w, Ok false).
Proof.
  intros Hf. rewrite is_valid_name_eq. unfold any_filter_matches.
  by rewrite Hf.
Qed.

Lemma for__skip (body : string -> M unit) names :
  (forall n w, body n w = (w, Ok tt)) ->
  forall w, for_ names body w = (w, Ok tt).
Proof.
  intros Hb. induction names as [|x l IH]; intros w; [reflexivity|].
  by rewrite for__cons, Hb.
Qed.

(** X5: with an empty list of filters ([filters=[]], not the default) no
    name is valid: [_apply_diff] does nothing at all for the namespace,
    whatever the diff is, and returns. *)
Theorem no_filters_nothing_done
    (env : Env) (self : MirrorHub) (refType : string) (diff : RefDiff)
    (config : TargetConfig) (w : World) :
  configured self refType config ->
  filters config = [] ->
  _apply_diff env self refType diff w = (w, Ok tt).
Proof.
  intros Hc Hf. rewrite (_apply_diff_configured _ _ _ _ _ _ Hc).
  rewrite _remove_for, for__skip.
  - rewrite _add_for, for__skip; [reflexivity|].
    intros n v. unfold add_one, bind.
    by rewrite (is_valid_name_no_filters _ _ _ Hf).
  - intros n v. unfold remove_one, bind.
    by rewrite (is_valid_name_no_filters _ _ _ Hf).
Qed.

Lemma no_filters_nothing_done_witness :
  _apply_diff failing_hook
    {| repo := repo example_hub;
       branchesConfig := Some (TargetConfig_init "/srv/branches" (Some []) None);
       tagsConfig := None |}
    "branches" (diff_of ["x"] ["dev"] ["main"]) example_world
  = (example_world, Ok tt).
Proof.
  apply (no_filters_nothing_done failing_hook
           {| repo := repo example_hub;
              branchesConfig :=
                Some (TargetConfig_init "/srv/branches" (Some []) None);
              tagsConfig := None |}
           "branches" (diff_of ["x"] ["dev"] ["main"])
           (TargetConfig_init "/srv/branches" (Some []) None) example_world).
  - left. split; reflexivity.
  - reflexivity.
Defined.

(** ** What [_remove] and [_add] do, name by name *)

Lemma flat_map_ext_in {A B : Type} (f g : A -> list B) l :
  (forall x, In x l -> f x = g x) -> flat_map f l = flat_map g l.
Proof.
  induction l as [|x l IH]; intros H; [reflexivity|]. simpl.
  rewrite (H x (or_introl eq_refl)), IH; [reflexivity|].
  intros y Hy. apply H. by right.
Qed.


Lemma add_events_other config refType m p nd name :
  p <> target config name ->
  add_events config refType (<[p := nd]> m) name
  = add_events config refType m name.
Proof.
  intros Hne. unfold add_events. by rewrite lookup_insert_ne.
Qed.



(** X7: for names without repetition whose valid members the mirror has,
    a hook that can be run and no file in the way, [_add] returns; the
    valid names have their checkouts at the revisions of the mirror, and
    [_add] has done for each name in turn: the diagnostic if the name is
    not valid, else the warning and the deletion if a directory was there,
    then pre-add, the clone, post-add. *)
Theorem _add_name_by_name
    (env : Env) (self : MirrorHub) (refType : string)
    (config : TargetConfig) (names : list string) (w : World) :
  NoDup names ->
  hook_ok env config = true ->
  (forall n, In n names -> valid_name config n = true ->
     fs w !! target config n <> Some File
     /\ is_Some (resolve (repo self) n)) ->
  _add env self refType config names w
  = ({| fs := checked_out (repo self) config names (fs w);
        trace := trace w
                 ++ flat_map (add_events config refType (fs w)) names |},
     Ok tt).
Proof.
  rewrite _add_for. revert w.
  induction names as [|x l IH]; intros w Hnd Hh Hok.
  - simpl. unfold ret. f_equal. same_world.
  - apply NoDup_cons in Hnd as [Hx Hnd]. rewrite list_elem_of_In in Hx.
    assert (Hne : forall n, In n l -> target config x <> target config n).
    { intros n Hn Heq. apply target_inj in Heq. congruence. }
    rewrite for__cons, add_one_eq. cbv zeta.
    simpl flat_map. unfold add_events at 1.
    unfold checked_out. simpl foldl. fold (checked_out (repo self) config l).
    destruct (valid_name config x) eqn:Hv.
    + destruct (Hok x (or_introl eq_refl) Hv) as [Hxf [r Hr]].
      rewrite Hh, Hr.
      assert (Hok' : forall n, In n l -> valid_name config n = true ->
                <[target config x := Checkout r]> (fs w) !! target config n
                <> Some File
                /\ is_Some (resolve (repo self) n)).
      { intros n Hn Hvn. rewrite lookup_insert_ne by auto.
        apply Hok; [by right | exact Hvn]. }
      assert (Hev : flat_map (add_events config refType
                      (<[target config x := Checkout r]> (fs w))) l
                    = flat_map (add_events config refType (fs w)) l).
      { apply flat_map_ext_in. intros n Hn. apply add_events_other. auto. }
      destruct (fs w !! target config x) as [[r0| |]|] eqn:Hp;
        [| |congruence|];
        (rewrite IH by (simpl; assumption); simpl fs; simpl trace;
         rewrite Hev; f_equal; f_equal;
         rewrite <- ?app_assoc; simpl; rewrite <- ?app_assoc; reflexivity).
    + rewrite IH by (try assumption; intros n Hn; apply Hok; by right).
      simpl. by rewrite app_assoc.
Qed.

Lemma _add_name_by_name_witness :
  _add failing_hook example_hub "branches"
       (TargetConfig_init "/srv/branches" None (Some "/bin/hook"))
       ["a$b"; "dev"] example_world
  = ({| fs := <["/srv/branches/dev" := Checkout "111"]> (fs example_world);
        trace :=
          [Print "name 'a$b' is not allowed (contains 'a$')";
           Call ["/bin/hook"; "branches"; "pre-add"; "dev";
                 "about to clone to path /srv/branches/dev"];
           Clone "/srv/branches/dev" "dev";
           Call ["/bin/hook"; "branches"; "post-add"; "dev";
                 "cloned to path /srv/branches/dev"]] |},
     Ok tt).
Proof.
  apply (_add_name_by_name failing_hook example_hub "branches"
           (TargetConfig_init "/srv/branches" None (Some "/bin/hook"))
           ["a$b"; "dev"] example_world).
  - repeat (apply NoDup_cons; split;
            [rewrite list_elem_of_In; simpl; intuition discriminate|]).
    apply NoDup_nil. exact I.
  - reflexivity.
  - intros n [<-|[<-|[]]]; [discriminate|].
    intros _. split; [vm_compute; discriminate | vm_compute; eauto].
Defined.

(** ** When a step fails *)



Lemma remove_one_no_hook env refType config name w :
  hook_ok env config = false ->
  fs (fst (remove_one env refType config name w)) = fs w
  /\ (snd (remove_one env refType config name w) = Ok tt
      <-> (valid_name config name = true ->
           fs w !! target config name = None)).
Proof.
  intros Hh. rewrite remove_one_eq. cbv zeta. rewrite Hh.
  destruct (valid_name config name).
  - destruct (fs w !! target config name) as [nd|]; simpl.
    + split; [reflexivity|]. split; [discriminate|].
      intros H. specialize (H eq_refl). discriminate.
    + split; [reflexivity|]. split; auto.
  - simpl. split; [reflexivity|]. split; [discriminate | auto].
Qed.

(** X9: with a hook that cannot be started, [_remove] deletes nothing; it
    returns only if no valid name of the list has a directory, else it
    raises at the first that has one. *)
Theorem _remove_no_hook
    (env : Env) (self : MirrorHub) (refType : string)
    (config : TargetConfig) (names : list string) (w : World) :
  hook_ok env config = false ->
  fs (fst (_remove env self refType config names w)) = fs w
  /\ (snd (_remove env self refType config names w) = Ok tt
      <-> forall n, In n names -> valid_name config n = true ->
            fs w !! target config n = None).
Proof.
  intros Hh. rewrite _remove_for. revert w.
  induction names as [|x l IH]; intros w.
  - simpl. split; [reflexivity|]. split; [intros _ n [] | reflexivity].
  - rewrite for__cons.
    destruct (remove_one_no_hook env refType config x w Hh) as [Hfs Hok].
    destruct (remove_one env refType config x w) as [w1 [[]|e]];
      simpl in Hfs, Hok.
    + destruct (IH w1) as [Hfs1 Hok1]. rewrite Hfs in Hfs1, Hok1.
      split; [exact Hfs1|]. rewrite Hok1. split.
      * intros H n [<-|Hn] Hv; [by apply Hok | by apply H].
      * intros H n Hn Hv. apply H; [by right | exact Hv].
    + simpl. split; [exact Hfs|]. split; [discriminate|].
      intros H. assert (Hx : Raise e = Ok tt); [|discriminate].
      apply Hok. intros Hv. apply H; [by left | exact Hv].
Qed.

Lemma _remove_no_hook_witness :
  fs (fst (_remove {| executable := fun _ => false;
                      exit_status := fun _ => 0%Z |}
                   example_hub "branches"
                   (TargetConfig_init "/srv/branches" None (Some "/bin/hook"))
                   ["gone"; "x"] example_world))
  = fs example_world.
Proof.
  apply (proj1 (_remove_no_hook
                  {| executable := fun _ => false;
                     exit_status := fun _ => 0%Z |}
                  example_hub "branches"
                  (TargetConfig_init "/srv/branches" None (Some "/bin/hook"))
                  ["gone"; "x"] example_world eq_refl)).
Defined.

(** ** The file system after [_apply_diff] *)








(** ** From a diff of the refs to a checkout tree in step *)





(** ** [MirrorHub.sync] *)

Lemma configured_with_repo self r refType config :
  configured self refType config ->
  configured (with_repo self r) refType config.
Proof. exact id. Qed.

Lemma with_repo_same self : with_repo self (repo self) = self.
Proof. by destruct self. Qed.

Lemma _apply_diff_nothing env self refType unm w :
  refType = "branches" \/ refType = "tags" ->
  _apply_diff env self refType
    {| removed := []; added := []; modified := []; unmodified := unm |} w
  = (w, Ok tt).
Proof.
  intros [-> | ->]; unfold _apply_diff, bind at 1; simpl.
  - by destruct (branchesConfig self).
  - by destruct (tagsConfig self).
Qed.

Lemma MirrorHub_sync_same env self w :
  MirrorHub_sync env (Some (repo self)) self w = (self, (w, Ok tt)).
Proof.
  unfold MirrorHub_sync, Repo_sync. rewrite !get_diff_same, with_repo_same.
  unfold bind. rewrite _apply_diff_nothing by auto.
  by rewrite _apply_diff_nothing by auto.
Qed.




(** X14: a sync that fetches nothing new does nothing: the hub and the
    world are as they were and the sync returns. *)
Theorem sync_nothing_new (env : Env) (self : MirrorHub) (w : World) :
  MirrorHub_sync env (Some (repo self)) self w = (self, (w, Ok tt)).
Proof. apply MirrorHub_sync_same. Qed.

(** ** [MirrorHub.__init__] *)





(** X16: [__init__] on a mirror that is already there, when the fetch
    brings nothing new: the checkout tree is not touched, nothing is
    printed or announced, and the hub is returned; the URL to fetch from
    is [remoteUrl] when one is given, else the origin of the mirror. *)
Theorem init_existing_nothing_new
    (env : Env) (remote : option string -> option Repo)
    (origin remoteUrl : option string) (r : Repo)
    (bc tc : option TargetConfig) (w : World) :
  remote (match remoteUrl with Some url => Some url | None => origin end)
  = Some r ->
  MirrorHub_init env remote (Some (origin, r)) remoteUrl bc tc w
  = (Some (match remoteUrl with Some url => Some url | None => origin end, r),
     (w, Ok {| repo := r; branchesConfig := bc; tagsConfig := tc |})).
Proof.
  intros Hremote. unfold MirrorHub_init. rewrite Hremote.
  change (Some r) with
    (Some (repo {| repo := r; branchesConfig := bc; tagsConfig := tc |})).
  by rewrite MirrorHub_sync_same.
Qed.

Lemma init_existing_nothing_new_witness :
  MirrorHub_init failing_hook (fun _ => Some (repo example_hub))
    (Some (Some "git://upstream", repo example_hub)) None
    (branchesConfig example_hub) (tagsConfig example_hub) example_world
  = (Some (Some "git://upstream", repo example_hub),
     (example_world, Ok example_hub)).
Proof.
  apply (init_existing_nothing_new failing_hook
           (fun _ => Some (repo example_hub))
           (Some "git://upstream") None (repo example_hub)
           (branchesConfig example_hub) (tagsConfig example_hub)
           example_world eq_refl).
Defined.
